(** * A shallow embedding of the task engine of PLUMED 2 (plumed2 sources:
    the action graph, task lists, chains and derivative stores).

    Doubles are modelled by rationals [Q]: every claim below is about a
    comparison or a sum written in the source, and [Q] keeps those
    expressions as written.  Vectors of the source ([std::vector<unsigned>],
    [std::vector<double>]) are Rocq lists, updated by index with [upd]. *)

From Stdlib Require Import List Arith Bool Lia QArith Lqa.
From Stdlib Require String.
Import (notations) String.
Import ListNotations.
Open Scope nat_scope.

(** ** Shared helpers *)

(** [v[j] = x] on a [std::vector]; out of range the source is undefined and
    every use below stays in range. *)
Fixpoint upd {A} (l : list A) (j : nat) (x : A) : list A :=
  match l, j with
  | [], _ => []
  | _ :: r, 0 => x :: r
  | y :: r, S j' => y :: upd r j' x
  end.

(** The C++ comparison [x < y] on doubles. *)
Definition Qltb (x y : Q) : bool := negb (Qle_bool y x).

(** [x] precedes [y] in the trace [l]. *)
Definition precedes {A} (l : list A) (x y : A) : Prop :=
  exists l1 l2 l3, l = l1 ++ x :: l2 ++ y :: l3.

(** ** PlumedMain: the forward and the backward loop of one step
    ([PlumedMain::justCalculate], [PlumedMain::backwardPropagate]). *)
Module PlumedMain.
Section Loops.

Variable Action : Type.
(** [Action::isActive], fixed for the step. *)
Variable isActive : Action -> bool.

(** The actions whose [calculate()] runs, in order: the range-for over
    [actionSet] keeping the active ones. *)
Fixpoint forward_loop (actions : list Action) : list Action :=
  match actions with
  | [] => []
  | p :: rest => if isActive p then p :: forward_loop rest else forward_loop rest
  end.

Definition justCalculate (active : bool) (actionSet : list Action) : list Action :=
  if active then forward_loop actionSet else [].

(** The actions whose [apply()] runs, in order: the loop from
    [actionSet.rbegin()] to [actionSet.rend()]. *)
Definition backwardPropagate (active : bool) (actionSet : list Action) : list Action :=
  if active then forward_loop (rev actionSet) else [].

End Loops.

Arguments forward_loop {Action} isActive actions.
Arguments justCalculate {Action} isActive active actionSet.
Arguments backwardPropagate {Action} isActive active actionSet.

End PlumedMain.

(** ** FindContour (src/unnamed/part_000): the grid edges searched for a
    crossing, and the search of one edge. *)
Module FindContour.
Section Grid.

(** [getGridObject().getNbin(false)]; the rank of the grid is its length. *)
Variable nbin : list nat.
(** [getGridObject().isPeriodic(j)]. *)
Variable isPeriodic : nat -> bool.
(** [getGridObject().getIndex] and [getGridObject().getIndices]. *)
Variable getIndex : list nat -> nat.
Variable getIndices : nat -> list nat.
(** [getPntrToArgument(0)->get(k)], the grid values. *)
Variable value : nat -> Q.
(** The CONTOUR keyword. *)
Variable contour : Q.

Definition rank : nat := length nbin.

(** Modelled from the spec: [addTaskToCurrentList] is called here but not
    defined in src.  Section 4.4 of the spec: the node restricts the task
    indices visited this step; the call records one more index in the
    current task list of the output. *)
Definition addTaskToCurrentList (t : nat) (tasks : list nat) : list nat := tasks ++ [t].

(** The body of [for(unsigned j=0; j<gval->getRank(); ++j)] with the
    mutable [ind], [edge] and the current task list. *)
Fixpoint dim_loop (i : nat) (val1 : Q) (js : list nat) (ind : list nat)
         (edge : bool) (tasks : list nat) : list nat * bool * list nat :=
  match js with
  | [] => (ind, edge, tasks)
  | j :: js' =>
      let nb := nth j nbin 0 in
      if negb (isPeriodic j) && (nth j ind 0 + 1 =? nb) then
        dim_loop i val1 js' ind edge tasks
      else
        let '(edge1, ind1) :=
          if nth j ind 0 + 1 =? nb then (true, upd ind j 0)
          else (edge, upd ind j (nth j ind 0 + 1)) in
        let val2 := (value (getIndex ind1) - contour)%Q in
        let tasks1 := if Qltb (val1 * val2) 0 then addTaskToCurrentList (rank * i + j) tasks
                      else tasks in
        let '(edge2, ind2) :=
          if isPeriodic j && edge1 then (false, upd ind1 j (nb - 1))
          else (edge1, upd ind1 j (nth j ind1 0 - 1)) in
        dim_loop i val1 js' ind2 edge2 tasks1
  end.

(** [FindContour::setupCurrentTaskList]: [tasks] is the current task list
    of the first output. *)
Fixpoint point_loop (is : list nat) (tasks : list nat) : list nat :=
  match is with
  | [] => tasks
  | i :: is' =>
      let ind := getIndices i in
      let val1 := (value i - contour)%Q in
      let '(_, _, tasks1) := dim_loop i val1 (seq 0 rank) ind false tasks in
      point_loop is' tasks1
  end.

Definition setupCurrentTaskList (npoints : nat) (tasks : list nat) : list nat :=
  point_loop (seq 0 npoints) tasks.

(** The neighbour of grid point [ind] along dimension [j] that the loop
    compares with: one up, wrapping round to 0 at the top. *)
Definition neighbour (ind : list nat) (j : nat) : list nat :=
  if nth j ind 0 + 1 =? nth j nbin 0 then upd ind j 0
  else upd ind j (nth j ind 0 + 1).

(** The edge from [ind] along [j] is looked at: it does not leave the
    grid along a non-periodic dimension. *)
Definition examined (ind : list nat) (j : nat) : bool :=
  isPeriodic j || negb (nth j ind 0 + 1 =? nth j nbin 0).

End Grid.

Section Search.

(** The rank of the grid, [getPntrToArgument(0)->getRank()]. *)
Variable grank : nat.
(** [getGridObject().getGridSpacing()]. *)
Variable spacing : list Q.
(** [getGridObject().getGridPointCoordinates(k, point)]. *)
Variable getGridPointCoordinates : nat -> list Q.
(** The function on the grid evaluated at a point (EvaluateGridFunction),
    and the CONTOUR keyword. *)
Variable field : list Q -> Q.
Variable contour : Q.
(** The number of halvings done by the root finder. *)
Variable root_iters : nat.

(** [point + t * direction], component by component. *)
Definition along (point direction : list Q) (t : Q) : list Q :=
  map (fun pd => (fst pd + t * snd pd)%Q) (combine point direction).

(** Modelled from the spec: [ContourFindingBase::findContour] and the root
    finder it uses are declared in ContourFindingBase.h and RootFindingBase,
    which are not in src.  Section 4.4 of the spec: a 1-D root search
    (secant/bisection) of [f - c] on the segment from [point] along
    [direction].  Here a bisection on the parameter [t] of
    [point + t * direction], started on the bracket [[0,1]], that returns
    the middle of the last bracket. *)
Fixpoint bisect (g : Q -> Q) (n : nat) (lo hi : Q) : Q :=
  let m := ((lo + hi) / 2)%Q in
  match n with
  | 0 => m
  | S n' => if Qle_bool (g lo * g m) 0 then bisect g n' lo m else bisect g n' m hi
  end.

Definition findContour (direction point : list Q) : list Q :=
  let g := fun t => (field (along point direction t) - contour)%Q in
  along point direction (bisect g root_iters 0 1).

(** [std::vector<double> direction(rank, 0);
     direction[gdir] = 0.999999999*getGridSpacing()[gdir];] *)
Definition search_direction (current : nat) : list Q :=
  let gdir := current mod grank in
  upd (repeat 0%Q grank) gdir ((999999999 # 1000000000) * nth gdir spacing 0)%Q.

(** [FindContour::performTask]: the point found for task [current]. *)
Definition performTask (current : nat) : list Q :=
  let gpoint := current / grank in
  let point := getGridPointCoordinates gpoint in
  findContour (search_direction current) point.

End Search.

(** [FindContour::finishOutputSetup]: the shape given to every output,
    [getPntrToArgument(0)->getRank()*getPntrToArgument(0)->getNumberOfValues()]. *)
Definition finishOutputSetup (grid_rank nvalues : nat) : nat := grid_rank * nvalues.

End FindContour.

(** ** SecondaryStructureRMSD: the STRANDS_CUTOFF pre-filter. *)
Module SecondaryStructureRMSD.

Record Vector := mkVector { vx : Q; vy : Q; vz : Q }.

(** [Vector::modulo2]. *)
Definition modulo2 (v : Vector) : Q := (vx v * vx v + vy v * vy v + vz v * vz v)%Q.

(** The constructor: [s_cutoff2] is 0 unless STRANDS_CUTOFF is a keyword of
    the action, then the square of its value. *)
Definition s_cutoff2_of (has_strands_cutoff : bool) (s_cutoff : Q) : Q :=
  if has_strands_cutoff then (s_cutoff * s_cutoff)%Q else 0%Q.

Section Tasks.

(** [pbcDistance], [ActionAtomistic::getPosition] and [getAtomIndex]. *)
Variable pbcDistance : Vector -> Vector -> Vector.
Variable getPosition : nat -> Vector.
Variable getAtomIndex : nat -> nat -> nat.
Variable align_atom_1 align_atom_2 : nat.
Variable label : String.string.

(** The squared distance between the two marker atoms of task [i]. *)
Definition strands_distance2 (i : nat) : Q :=
  modulo2 (pbcDistance (getPosition (getAtomIndex i align_atom_1))
                       (getPosition (getAtomIndex i align_atom_2))).

(** [for(unsigned i=0; i<tflags.size(); ++i) ... if(...) tflags[i]=1;] *)
Fixpoint flag_loop (s_cutoff2 : Q) (i : nat) (tflags : list nat) : list nat :=
  match tflags with
  | [] => []
  | f :: rest =>
      (if Qltb (strands_distance2 i) s_cutoff2 then 1 else f)
        :: flag_loop s_cutoff2 (S i) rest
  end.

(** [SecondaryStructureRMSD::buildCurrentTaskList]. *)
Definition buildCurrentTaskList (s_cutoff2 : Q)
           (actionsThatSelectTasks : list String.string) (tflags : list nat)
  : list String.string * list nat :=
  if Qltb 0 s_cutoff2 then
    (actionsThatSelectTasks ++ [label], flag_loop s_cutoff2 0 tflags)
  else (actionsThatSelectTasks, tflags).

(** The RMSD of task [i] to the reference structure, as computed by
    [performTask]. *)
Variable rmsd : nat -> Q.

(** Modelled from the spec: [ActionWithValue::runAllTasks], which calls
    [buildCurrentTaskList] and then [performTask], is not in src.  Section
    4.4 of the spec: before a run each node may restrict the task indices
    visited; section 4.5: skipped tasks contribute zero value and are
    excluded from the active task list.  The flags start at 0, this action
    is the one that selects tasks; with no selecting action every task is
    run. *)
Definition activeTasks (s_cutoff2 : Q) (ntasks : nat) : list nat :=
  let '(sel, tflags) := buildCurrentTaskList s_cutoff2 [] (repeat 0 ntasks) in
  match sel with
  | [] => seq 0 ntasks
  | _ => filter (fun i => negb (nth i tflags 0 =? 0)) (seq 0 ntasks)
  end.

(** The tasks [performTask] (the RMSD computation) runs on, in order, and
    the value stored for each task. *)
Definition runAllTasks (s_cutoff2 : Q) (ntasks : nat) : list nat * list Q :=
  let act := activeTasks s_cutoff2 ntasks in
  (act, map (fun i => if existsb (Nat.eqb i) act then rmsd i else 0%Q) (seq 0 ntasks)).

End Tasks.
End SecondaryStructureRMSD.

(** ** The derivative store of a task record and the box derivatives. *)
Module AdjacencyMatrixBase.

(** Derivatives of a [MultiValue]: value index, derivative index. *)
Definition Derivs := nat -> nat -> Q.
(** A 3x3 [Tensor], [t(a,b)]. *)
Definition Tensor := nat -> nat -> Q.

(** Modelled from the spec: [MultiValue::addDerivative] is not in src.
    Section 3 of the spec: duplicate contributions to the same
    (component, index) pair accumulate. *)
Definition addDerivative (ival jder : nat) (x : Q) (d : Derivs) : Derivs :=
  fun v k => if (v =? ival) && (k =? jder) then (d v k + x)%Q else d v k.

(** [AdjacencyMatrixBase::addBoxDerivatives] (src/unnamed/part_007). *)
Definition addBoxDerivatives (doNotCalculateDerivatives : bool) (natoms w_index : nat)
           (vir : Tensor) (d : Derivs) : Derivs :=
  if doNotCalculateDerivatives then d else
  let nbase := 3 * natoms in
  addDerivative w_index (nbase + 8) (vir 2 2)
  (addDerivative w_index (nbase + 7) (vir 2 1)
  (addDerivative w_index (nbase + 6) (vir 2 0)
  (addDerivative w_index (nbase + 5) (vir 1 2)
  (addDerivative w_index (nbase + 4) (vir 1 1)
  (addDerivative w_index (nbase + 3) (vir 1 0)
  (addDerivative w_index (nbase + 2) (vir 0 2)
  (addDerivative w_index (nbase + 1) (vir 0 1)
  (addDerivative w_index (nbase + 0) (vir 0 0) d)))))))).

(** Modelled from the spec: the virial that a concrete [calculateWeight]
    passes to [addBoxDerivatives]; the weights (contact matrices and the like)
    are not in src.  Section 4.3 of the spec: [-Σ position_i ⊗ ∂w/∂r_i] over
    the atoms of the pair, position [pos_i] and derivative [dw_i]. *)
Definition weight_virial (pos dw : list (nat -> Q)) : Tensor :=
  fun a b => (- fold_right Qplus 0 (map (fun pd => fst pd a * snd pd b) (combine pos dw)))%Q.

End AdjacencyMatrixBase.

(** ** MultiColvarBase: the derivative indices of one task and its virial. *)
Module MultiColvarBase.
Section Task.

(** [ablocks[i][task]] is the i-th atom of task [task]. *)
Variable ablocks : list (list nat).
(** [getPntrToOutput(j)->getPositionInStream()]. *)
Variable posInStream : nat -> nat.

Definition atom_of (task i : nat) : nat := nth task (nth i ablocks []) 0.

(** [bool newi=true; for(unsigned j=0; j<i; ++j) if(ablocks[j][t]==ablocks[i][t]) newi=false;] *)
Definition newi (task i : nat) : bool :=
  forallb (fun j => negb (atom_of task j =? atom_of task i)) (seq 0 i).

(** The [myvals.updateIndex(stream position, index)] calls made by
    [MultiColvarBase::performTask] after [compute], in order. *)
Definition performTask_updates (doNotCalculateDerivatives : bool)
           (nderivatives natoms ncomponents task : nat) : list (nat * nat) :=
  if doNotCalculateDerivatives || (nderivatives =? natoms) then [] else
  flat_map (fun i =>
      if newi task i then
        let base := 3 * atom_of task i in
        flat_map (fun j => [(posInStream j, base); (posInStream j, base + 1);
                            (posInStream j, base + 2)]) (seq 0 ncomponents)
      else []) (seq 0 (length ablocks))
  ++ flat_map (fun j => map (fun i => (posInStream j, 3 * natoms + i)) (seq 0 9))
              (seq 0 ncomponents).

(** The [updateIndex] calls for position [i] of the task's atom list,
    when it is the first position of its atom. *)
Definition atom_block (ncomponents task i : nat) : list (nat * nat) :=
  let base := 3 * atom_of task i in
  flat_map (fun j => [(posInStream j, base); (posInStream j, base + 1);
                      (posInStream j, base + 2)]) (seq 0 ncomponents).

(** The [updateIndex] calls for the nine virial slots. *)
Definition virial_block (natoms ncomponents : nat) : list (nat * nat) :=
  flat_map (fun j => map (fun i => (posInStream j, 3 * natoms + i)) (seq 0 9))
           (seq 0 ncomponents).

Definition Tensor := nat -> nat -> Q.
Definition zero_tensor : Tensor := fun _ _ => 0%Q.

(** [virial -= Tensor(u, v)]. *)
Definition sub_outer (virial : Tensor) (u v : nat -> Q) : Tensor :=
  fun a b => (virial a b - u a * v b)%Q.

(** The loop of [MultiColvarBase::setBoxDerivativesNoPbc]; [der k] is
    [myvals.getDerivative(ival, k)], [fpositions] the positions of the
    task's atoms. *)
Fixpoint virial_loop (task : nat) (fpositions : list (nat -> Q)) (der : nat -> Q)
         (is : list nat) (virial : Tensor) : Tensor :=
  match is with
  | [] => virial
  | i :: rest =>
      if newi task i then
        virial_loop task fpositions der rest
          (sub_outer virial (nth i fpositions (fun _ => 0%Q))
                     (fun b => der (3 * atom_of task i + b)))
      else virial_loop task fpositions der rest virial
  end.

(** The virial [setBoxDerivativesNoPbc] hands to [addBoxDerivatives];
    [None] when it returns first. *)
Definition setBoxDerivativesNoPbc (doNotCalculateDerivatives : bool) (task : nat)
           (fpositions : list (nat -> Q)) (der : nat -> Q) : option Tensor :=
  if doNotCalculateDerivatives then None
  else Some (virial_loop task fpositions der (seq 0 (length ablocks)) zero_tensor).

(** The positions [i] of the task's atom list that the two loops keep. *)
Definition first_positions (task : nat) : list nat :=
  filter (newi task) (seq 0 (length ablocks)).

End Task.
End MultiColvarBase.

(** ** ActionWithArguments: which arguments are stored and which actions are
    chained (src/src/core/PbcAction.cpp). *)
Module ActionWithArguments.

(** What [requestArguments] and [setupActionInChain] read of an argument
    [arguments[i]]. *)
Record Arg := mkArg {
  rank : nat;                            (** [getRank()] *)
  isConstant : bool;                     (** [isConstant()] *)
  alwaysstore : bool;                    (** [alwaysstore] *)
  prod_label : String.string;            (** [getPntrToAction()->getLabel()] *)
  prod_setup : bool;                     (** [getPntrToAction()] is an [ActionSetup] *)
  prod_average : bool;                   (** [getPntrToAction()] is an [AverageBase] *)
  prod_neighbors : bool;                 (** [getPntrToAction()->getName()=="NEIGHBORS"] *)
  prod_can_chain : bool;                 (** [getPntrToAction()->canChainFromThisAction()] *)
  store_data_for : list String.string;   (** the labels [store_data_for[j].first] *)
  calc : nat;                            (** [getActionThatCalculates()] *)
  calc_setup : bool;                     (** it is an [ActionSetup] *)
  calc_read : bool                       (** its name is READ *)
}.

Definition dflt_arg : Arg := mkArg 0 false false ""%string false false false false [] 0 false false.

Inductive result (A : Type) : Type :=
| Ok (a : A)
| Error (msg : String.string).
Arguments Ok {A} a.
Arguments Error {A} msg.

Section Graph.

(** [ntasks] of each output [getPntrToOutput(j)] of an action. *)
Variable ntasks_of : nat -> list nat.
(** [Action::checkForDependency] and [Action::getDependencies]. *)
Variable checkForDependency : nat -> nat -> bool.
Variable getDependencies : nat -> list nat.
(** The actions of [plumed.getActionSet()], in order. *)
Variable actionSet : list nat.
(** [addActionToChain(alabels, this)] on the action that produces an
    argument, named by its label: whether this action was added. *)
Variable addActionToChain : String.string -> bool.

Definition arg (args : list Arg) (i : nat) : Arg := nth i args dflt_arg.

(** The first loop of [requestArguments], over [i >= argstart]: returns
    [storing], [allconstant] and the arguments given [buildDataStore]. *)
Fixpoint first_loop (args : list Arg) (allow_streams : bool) (is : list nat)
         (allconstant : bool) (stores : list nat) : bool * bool * list nat :=
  match is with
  | [] => (false, allconstant, stores)
  | i :: rest =>
      let a := arg args i in
      if negb allow_streams then (true, allconstant, stores) else
      if alwaysstore a then
        if isConstant a || prod_setup a then
          first_loop args allow_streams rest (allconstant && isConstant a) (stores ++ [i])
        else (true, allconstant, stores)
      else
        first_loop args allow_streams rest (allconstant && isConstant a)
                   (if isConstant a then stores ++ [i] else stores)
  end.

(** The test on [store_data_for] in the second loop: the data of this
    argument is stored for the action of another argument. *)
Definition sdf_found (args : list Arg) (a : Arg) : bool :=
  existsb (fun s => existsb (fun b => String.eqb s (prod_label b) && negb (prod_neighbors b)) args)
          (store_data_for a).

Definition add_unique (x : nat) (l : list nat) : list nat :=
  if existsb (Nat.eqb x) l then l else l ++ [x].

(** The second loop of [requestArguments]: the arguments given
    [buildDataStore] and the upstream actions [f_actions]. *)
Fixpoint second_loop (args : list Arg) (argstart : nat) (storing : bool) (is : list nat)
         (stores f_actions : list nat) : list nat * list nat :=
  match is with
  | [] => (stores, f_actions)
  | i :: rest =>
      let a := arg args i in
      let stores1 := if prod_average a then stores ++ [i] else stores in
      if i <? argstart then second_loop args argstart storing rest stores1 f_actions else
      let stores2 := if storing then stores1 ++ [i] else stores1 in
      if 0 <? rank a then
        let stores3 := if sdf_found args a then stores2 ++ [i] else stores2 in
        let f1 := if negb (calc_setup a) && negb (isConstant a) && negb (calc_read a)
                  then add_unique (calc a) f_actions else f_actions in
        second_loop args argstart storing rest stores3 f1
      else second_loop args argstart storing rest (stores2 ++ [i]) f_actions
  end.

(** The arguments of rank > 0 from position [from] on. *)
Definition rank_positions (args : list Arg) (from : nat) : list nat :=
  filter (fun i => 0 <? rank (arg args i)) (seq from (length args - from)).

(** The dependency scan: [depend] appears in the action set before [f0]. *)
Fixpoint dep_found (set : list nat) (depend f0 : nat) : bool :=
  match set with
  | [] => false
  | p :: rest => if p =? depend then true else if p =? f0 then false else dep_found rest depend f0
  end.

(** The loop [for(unsigned i=1; i<f_actions.size(); ++i)] that decides
    [done_over_stream]. *)
Fixpoint chain_loop (f0 ntasks : nat) (fs : list nat) (done : bool) : bool :=
  match fs with
  | [] => done
  | fi :: rest =>
      let done1 := if forallb (Nat.eqb ntasks) (ntasks_of fi) then done else false in
      if negb done1 || checkForDependency f0 fi then false else
      let done2 := if forallb (fun d => dep_found actionSet d f0) (getDependencies fi)
                   then done1 else false in
      chain_loop f0 ntasks rest done2
  end.

Definition storing_of (args : list Arg) (allow_streams : bool) (argstart : nat) : bool :=
  let '(storing0, allconstant, _) :=
    first_loop args allow_streams (seq argstart (length args - argstart)) true [] in
  storing0 || allconstant.

Definition f_actions_of (args : list Arg) (allow_streams : bool) (argstart : nat) : list nat :=
  snd (second_loop args argstart (storing_of args allow_streams argstart)
                   (seq 0 (length args)) [] []).

(** The block [if( storing ) ... else if( f_actions.size()>1 ) ... else if(
    f_actions.size()==1 ) ...] of [requestArguments]: [done_over_stream]
    and the arguments given [buildDataStore] so far; [None] is a failed
    [plumed_assert] on the task counts of [f_actions[0]]. *)
Definition chaining_decision (storing : bool) (fa : list nat) (args : list Arg)
           (st2 : list nat) : option (bool * list nat) :=
  if storing then Some (false, st2) else
  match fa with
  | [] => Some (false, st2)
  | [f0] =>
      let nt := hd 0 (ntasks_of f0) in
      if forallb (Nat.eqb nt) (tl (ntasks_of f0)) then Some (true, st2) else None
  | f0 :: rest =>
      let nt := hd 0 (ntasks_of f0) in
      if forallb (Nat.eqb nt) (tl (ntasks_of f0)) then
        if chain_loop f0 nt rest true then Some (true, st2)
        else Some (false, st2 ++ rank_positions args 0)
      else None
  end.

(** The last block [if( done_over_stream ) ... else ...]: without
    chaining, every argument of rank > 0 from [argstart] on is stored. *)
Definition final_stores (args : list Arg) (argstart : nat)
           (decision : option (bool * list nat)) : option (bool * list nat) :=
  match decision with
  | None => None
  | Some (true, st) => Some (true, st)
  | Some (false, st) => Some (false, st ++ rank_positions args argstart)
  end.

(** [ActionWithArguments::requestArguments]: the final [done_over_stream]
    and the arguments given [buildDataStore] in order; [None] is a failed
    [plumed_assert].  [thisAsActionWithValue] tells whether the action is
    seen as an [ActionWithValue], [firstcall] whether [arguments] was
    empty, [hasSERIAL] whether the action has the SERIAL keyword. *)
Definition requestArguments (thisAsActionWithValue firstcall hasSERIAL allow_streams : bool)
           (argstart : nat) (args : list Arg) (done_prev : bool) : option (bool * list nat) :=
  match args with
  | [] => Some (done_prev, [])
  | _ =>
    let n := length args in
    let '(storing0, allconstant, st1) :=
      first_loop args allow_streams (seq argstart (n - argstart)) true [] in
    let storing := storing0 || allconstant in
    let '(st2, fa) := second_loop args argstart storing (seq 0 n) st1 [] in
    if firstcall && negb thisAsActionWithValue && negb hasSERIAL then
      Some (false, st2 ++ rank_positions args 0)
    else if negb firstcall && negb thisAsActionWithValue then Some (false, st2)
    else final_stores args argstart (chaining_decision storing fa args st2)
  end.

(** The first loop of [setupActionInChain]: the upstream actions to fuse
    into one chain. *)
Fixpoint collect_f_actions (this_label : String.string) (args : list Arg) (is : list nat)
         (fa : list nat) : list nat :=
  match is with
  | [] => fa
  | i :: rest =>
      let a := arg args i in
      if negb (calc_setup a) && negb (isConstant a) then
        if existsb (Nat.eqb (calc a)) fa then collect_f_actions this_label args rest fa
        else
          let storing_for_this :=
            existsb (fun s => (rank a =? 0) || String.eqb s this_label) (store_data_for a) in
          if (length fa =? 0) || negb storing_for_this
          then collect_f_actions this_label args rest (fa ++ [calc a])
          else collect_f_actions this_label args rest fa
      else collect_f_actions this_label args rest fa
  end.

(** The loop that adds this action to the chain of one of its arguments:
    [added] and [all_setup]. *)
Fixpoint add_loop (args : list Arg) (is : list nat) (all_setup : bool) : bool * bool :=
  match is with
  | [] => (false, all_setup)
  | i :: rest =>
      let a := arg args i in
      if prod_can_chain a && (0 <? rank a) && addActionToChain (prod_label a)
      then (true, all_setup)
      else add_loop args rest (if prod_can_chain a then false else all_setup)
  end.

Definition chain_error (this_label : String.string) : String.string :=
  String.append "could not add action "%string
    (String.append this_label " to chain of any of its arguments"%string).

(** [ActionWithArguments::setupActionInChain] up to the check on [added];
    on success, the upstream actions it fused (the source goes on to count
    the derivatives, which nothing below is about). *)
Definition setupActionInChain (this_label : String.string) (done_over_stream : bool)
           (argstart : nat) (args : list Arg) : result (list nat) :=
  if negb done_over_stream then Error "assertion failed: done_over_stream"%string else
  let n := length args in
  let fa := collect_f_actions this_label args (seq argstart (n - argstart)) [] in
  let '(added, all_setup) := add_loop args (seq argstart (n - argstart)) true in
  if negb all_setup && negb added then Error (chain_error this_label) else Ok fa.

(** The chain step of the [HistogramBase] constructor, reached when
    [distinct_arguments] is not empty. *)
Definition histogram_chain (this_label : String.string) (args : list Arg) : result unit :=
  if existsb (fun a => (0 <? rank a) && addActionToChain (prod_label a)) args
  then Ok tt else Error (chain_error this_label).

End Graph.

(** Modelled from the spec: reading the input into actions and running the
    steps (PlumedMain's input reading and [cmd]) is not in src.  Section 4.1
    of the spec: the graph is built from the whole input before any step;
    a construction failure is fatal and reported at once, with no retry.
    [constructions] are the outcomes of the constructors in input order;
    the result is the error or the number of steps run. *)
Fixpoint construct_all (constructions : list (result unit)) : result unit :=
  match constructions with
  | [] => Ok tt
  | Error m :: _ => Error m
  | Ok _ :: rest => construct_all rest
  end.

Definition plumed_run (constructions : list (result unit)) (nsteps : nat) : result nat :=
  match construct_all constructions with
  | Error m => Error m
  | Ok _ => Ok nsteps
  end.

End ActionWithArguments.

(** ** ActionWithArguments: forces on arguments, stashed arguments, shapes,
    skipping and constant values (src/src/core/PbcAction.cpp). *)
Module ArgumentValues.

(** The call [arguments[j]->addForce(k, f)]. *)
Record ForceCall := mkForceCall { fc_arg : nat; fc_index : nat; fc_force : Q }.

(** The loop of [setForceOnScalarArgument] over the arguments, given the
    [getNumberOfValues()] of each: the final [j] and [nn].  Without a
    [break], [j] keeps its initial value 0. *)
Fixpoint scalar_loop (nvals : list nat) (n i nt nn : nat) : nat * nat :=
  match nvals with
  | [] => (0, nn)
  | v :: rest =>
      if n <? nt + v then (i, nn) else scalar_loop rest n (S i) (nt + v) (nn + v)
  end.

(** [ActionWithArguments::setForceOnScalarArgument]: the [addForce] call
    it makes. *)
Definition setForceOnScalarArgument (nvals : list nat) (n : nat) (ff : Q) : ForceCall :=
  let '(j, nn) := scalar_loop nvals n 0 0 0 in mkForceCall j (n - nn) ff.




(** [store_data_for] of one argument: pairs (label, position in the stash). *)
Definition StoreDataFor := list (String.string * nat).

(** The inner loop of [getNumberOfStashedInputArguments]: the first entry
    for [label] gets [nquants]; [None] when there is none. *)
Fixpoint stash_first (label : String.string) (sdf : StoreDataFor) (nquants : nat)
  : option StoreDataFor :=
  match sdf with
  | [] => None
  | (l, q) :: rest =>
      if String.eqb l label then Some ((l, nquants) :: rest)
      else option_map (cons (l, q)) (stash_first label rest nquants)
  end.

(** [ActionWithArguments::getNumberOfStashedInputArguments] for the action
    labelled [label]: the new [store_data_for] of every argument and the
    final [nquants]. *)
Fixpoint getNumberOfStashedInputArguments (label : String.string) (sdfs : list StoreDataFor)
         (nquants : nat) : list StoreDataFor * nat :=
  match sdfs with
  | [] => ([], nquants)
  | s :: rest =>
      match stash_first label s nquants with
      | Some s' =>
          let '(r, nq) := getNumberOfStashedInputArguments label rest (S nquants) in (s' :: r, nq)
      | None =>
          let '(r, nq) := getNumberOfStashedInputArguments label rest nquants in (s :: r, nq)
      end
  end.

(** The position stored for [label] in the first matching entry. *)
Fixpoint stash_position (label : String.string) (sdf : StoreDataFor) : option nat :=
  match sdf with
  | [] => None
  | (l, q) :: rest => if String.eqb l label then Some q else stash_position label rest
  end.

(** [ActionWithArguments::getArgumentPositionInStream] for argument [jder]
    with [store_data_for] [sdf]: the position returned and the derivative
    [myvals.addDerivative(istrn, task_index, 1.0)] made (value, index);
    the [updateIndex] that follows it is not modelled. *)
Definition getArgumentPositionInStream (label : String.string) (sdf : StoreDataFor)
           (rank : nat) (isTimeSeries : bool) (positionInStream taskIndex : nat)
  : nat * option (nat * nat) :=
  match stash_position label sdf with
  | Some istrn =>
      let task_index := if (0 <? rank) && negb isTimeSeries then taskIndex else 0 in
      (istrn, Some (istrn, task_index))
  | None => (positionInStream, None)
  end.

(** An argument as [getValueShapeFromArguments] reads it: [getRank()] and
    [getShape()]. *)
Definition RankShape := (nat * list nat)%type.

(** The first loop: the shape of the first argument of rank 2. *)
Fixpoint rank2_shape (args : list RankShape) : option (list nat) :=
  match args with
  | [] => None
  | (r, sh) :: rest => if r =? 2 then Some [nth 0 sh 0; nth 1 sh 0] else rank2_shape rest
  end.

(** The second loop, with no [break]: every argument of rank 1 sets both
    entries. *)
Fixpoint rank1_loop (args : list RankShape) (r2shape : list nat) : list nat :=
  match args with
  | [] => r2shape
  | (r, sh) :: rest => rank1_loop rest (if r =? 1 then [nth 0 sh 0; nth 0 sh 0] else r2shape)
  end.

(** [ActionWithArguments::getValueShapeFromArguments]. *)
Definition getValueShapeFromArguments (args : list RankShape) : list nat :=
  match rank2_shape args with
  | Some s => s
  | None => rank1_loop args [0; 0]
  end.

(** [ActionWithArguments::skipCalculate] and [skipUpdate];
    [hasAverage] and [hasReweight] say that [theAverageInArguments] and
    [theReweightBase] are not NULL, [averageActive] and [reweightActive]
    are their [isActive()]. *)
Definition skipCalculate (hasAverage hasReweight : bool) : bool :=
  hasAverage || hasReweight.

Definition skipUpdate (hasAverage hasReweight averageActive reweightActive : bool) : bool :=
  if negb hasAverage && negb hasReweight then true
  else if hasAverage then negb averageActive
  else negb reweightActive.

(** The loop of [calculateConstantValues]; an argument is
    ([isConstant()], its action is an [ActionAtomistic]). *)
Fixpoint constant_loop (args : list (bool * bool)) (constant atoms : bool) : bool * bool :=
  match args with
  | [] => (constant, atoms)
  | (c, aa) :: rest =>
      let atoms1 := atoms || aa in
      if negb c then (false, atoms1) else constant_loop rest constant atoms1
  end.

(** [ActionWithArguments::calculateConstantValues]: the value returned,
    whether the outputs are made constant ([setConstant]) and whether the
    values are calculated at once ([activate(); calculate(); deactivate()]);
    [isAWV] says the action is an [ActionWithValue]. *)
Definition calculateConstantValues (isAWV : bool) (args : list (bool * bool)) (haveatoms : bool)
  : bool * bool * bool :=
  if negb isAWV || (length args =? 0) then (false, false, false) else
  let '(constant, atoms) := constant_loop args true false in
  if constant && atoms then (haveatoms, true, false)
  else if constant && negb haveatoms then (true, true, true)
  else (constant, constant, false).

Section Numerical.

(** [a->calculate()] followed by [myvals[j]->get()]: the values of the
    action for the argument values given. *)
Variable calc : list Q -> list Q.
(** [sqrt(epsilon)]. *)
Variable h : Q.



End Numerical.

End ArgumentValues.

(** ** MultiColvarBase: the atoms of the colvars and the shortcut lines
    (src/src/multicolvar/MultiColvarBase.cpp). *)
Module MultiColvarSetup.




Section Numbered.

(** [parseAtomList("ATOMS", i, t)]. *)
Variable atoms_numbered : nat -> list nat.


End Numbered.

Section Expand.

(** [Tools::convert] of an unsigned. *)
Variable convert : nat -> String.string.

Local Notation "a +s b" := (String.append a b) (at level 60, right associativity).

(** [keymap.count(k)] and [keymap.find(k)->second] on the
    [std::map<std::string,std::string>] of the shortcut keywords. *)
Definition count (keymap : list (String.string * String.string)) (k : String.string) : bool :=
  existsb (fun kv => String.eqb (fst kv) k) keymap.

Definition find_value (keymap : list (String.string * String.string)) (k : String.string)
  : String.string :=
  match find (fun kv => String.eqb (fst kv) k) keymap with
  | Some kv => snd kv
  | None => ""%string
  end.

Definition has_weights (weights : String.string) : bool := 0 <? String.length weights.

(** The MORE_THAN block of [MultiColvarBase::expandFunctions]: the lines
    passed to [readInputLine], in order. *)
Definition more_than_lines (labout argin weights : String.string)
           (keymap : list (String.string * String.string)) : list String.string :=
  if count keymap "MORE_THAN" then
    let mt_string := find_value keymap "MORE_THAN" in
    let sum_arg := if has_weights weights then labout +s "_wmt" else labout +s "_mt" in
    [labout +s "_mt: MORE_THAN ARG=" +s argin +s " SWITCH={" +s mt_string +s "}"]
    ++ (if has_weights weights
        then [labout +s "_wmt: MATHEVAL ARG1=" +s weights +s " ARG2=" +s labout
                     +s "_mt FUNC=x*y PERIODIC=NO"]
        else [])
    ++ [labout +s "_morethan: SUM ARG=" +s sum_arg +s " PERIODIC=NO"]
  else [].

(** The loop [for(unsigned i=1;; ++i)] of the MORE_THAN1 block; it stops
    at the first i with no MORE_THANi key, and [fuel] bounds the number of
    keys. *)
Fixpoint more_than_numbered_loop (fuel i : nat) (labout argin weights : String.string)
         (keymap : list (String.string * String.string)) : list String.string :=
  match fuel with
  | 0 => []
  | S f =>
      let istr := convert i in
      if negb (count keymap ("MORE_THAN" +s istr)) then [] else
      let mt_string1 := find_value keymap ("MORE_THAN" +s istr) in
      let sum_arg := if has_weights weights then labout +s "_wmt" +s istr
                     else labout +s "_mt" +s istr in
      [labout +s "_mt" +s istr +s ": MORE_THAN ARG=" +s argin +s " SWITCH={" +s mt_string1 +s "}"]
      ++ (if has_weights weights
          then [labout +s "_wmt" +s istr +s ": MATHEVAL ARG1=" +s weights +s "ARG2=" +s labout
                       +s "_lt" +s istr +s " FUNC=x*y PERIODIC=NO"]
          else [])
      ++ [labout +s "_morethan" +s istr +s ": SUM ARG=" +s sum_arg +s " PERIODIC=NO"]
      ++ more_than_numbered_loop f (S i) labout argin weights keymap
  end.

(** The MORE_THAN1 block of [MultiColvarBase::expandFunctions]. *)
Definition more_than_numbered_lines (labout argin weights : String.string)
           (keymap : list (String.string * String.string)) : list String.string :=
  if count keymap "MORE_THAN1"
  then more_than_numbered_loop (S (length keymap)) 1 labout argin weights keymap
  else [].

End Expand.

(** The line [l] is an action labelled [lab]: it starts with [lab:]. *)
Definition defines_label (lab l : String.string) : bool :=
  String.prefix (String.append lab ":") l.

End MultiColvarSetup.

(** ** SecondaryStructureRMSD: the segments and the alignment of the strands
    (src/src/secondarystructure/SecondaryStructureRMSD.cpp). *)
Module SecondaryStructureSetup.
Import SecondaryStructureRMSD.

(** [SecondaryStructureRMSD::addColvar]: the state is [colvar_atoms] and
    the indices passed to [addTaskToList] so far; [None] is the failed
    [plumed_assert]. *)
Definition addColvar (newatoms : list nat) (st : list (list nat) * list nat)
  : option (list (list nat) * list nat) :=
  let '(colvar_atoms, tasks) := st in
  if (0 <? length colvar_atoms) && negb (length (nth 0 colvar_atoms []) =? length newatoms)
  then None
  else Some (colvar_atoms ++ [newatoms], tasks ++ [length colvar_atoms]).

(** The segments added one after the other. *)
Fixpoint addColvars (segments : list (list nat)) (st : list (list nat) * list nat)
  : option (list (list nat) * list nat) :=
  match segments with
  | [] => Some st
  | s :: rest =>
      match addColvar s st with
      | Some st1 => addColvars rest st1
      | None => None
      end
  end.

Definition vzero : Vector := mkVector 0 0 0.
Definition vadd (a b : Vector) : Vector := mkVector (vx a + vx b) (vy a + vy b) (vz a + vz b).
Definition vsub (a b : Vector) : Vector := mkVector (vx a - vx b) (vy a - vy b) (vz a - vz b).


(** [for(unsigned i=15; i<30; ++i) pos[i]+=( origin_new - origin_old );] *)
Fixpoint shift_positions (pos : list Vector) (is : list nat) (d : Vector) : list Vector :=
  match is with
  | [] => pos
  | i :: rest => shift_positions (upd pos i (vadd (nth i pos vzero) d)) rest d
  end.

(** [for(unsigned i=0; i<n-1; ++i) { ... second=first+pbcDistance(first,second); }] *)
Fixpoint make_whole (pbcDistance : Vector -> Vector -> Vector) (pos : list Vector)
         (is : list nat) : list Vector :=
  match is with
  | [] => pos
  | i :: rest =>
      let first := nth i pos vzero in
      make_whole pbcDistance
        (upd pos (S i) (vadd first (pbcDistance first (nth (S i) pos vzero)))) rest
  end.

(** The positions [SecondaryStructureRMSD::performTask] hands to the
    reference: [drmsd] is [alignType=="DRMSD"]. *)
Definition performTask_positions (pbcDistance : Vector -> Vector -> Vector)
           (drmsd align_strands nopbc : bool) (align_atom_1 align_atom_2 : nat)
           (pos : list Vector) : list Vector :=
  let distance := pbcDistance (nth align_atom_1 pos vzero) (nth align_atom_2 pos vzero) in
  if negb drmsd && align_strands then
    let origin_old := nth align_atom_2 pos vzero in
    let origin_new := vadd (nth align_atom_1 pos vzero) distance in
    shift_positions pos (seq 15 15) (vsub origin_new origin_old)
  else if negb drmsd && negb nopbc then
    make_whole pbcDistance pos (seq 0 (length pos - 1))
  else pos.

End SecondaryStructureSetup.

(** ** HistogramBase: the normalization shortcut, the argument groups and
    the grid buffer (src/src/gridtools/HistogramBase.cpp). *)
Module HistogramBase.

Local Notation "a +s b" := (String.append a b) (at level 60, right associativity).

Definition count (keys : list (String.string * String.string)) (k : String.string) : bool :=
  existsb (fun kv => String.eqb (fst kv) k) keys.

Definition find_value (keys : list (String.string * String.string)) (k : String.string)
  : String.string :=
  match find (fun kv => String.eqb (fst kv) k) keys with
  | Some kv => snd kv
  | None => ""%string
  end.

(** [HistogramBase::resolveNormalizationShortcut]: [actions] with the new
    actions (lists of words) pushed at the end. *)
Definition resolveNormalizationShortcut (lab : String.string) (words : list String.string)
           (keys : list (String.string * String.string)) (actions : list (list String.string))
  : list (list String.string) :=
  let heights := count keys "HEIGHTS" in
  let unorm := count keys "UNORMALIZED" in
  let hstr := find_value keys "HEIGHTS" in
  let actions1 :=
    if heights && negb unorm
    then actions ++ [[lab +s "_hsum:"; "COMBINE"; "ARG=" +s hstr; "PERIODIC=NO"]]%string
    else actions in
  let inp0 :=
    if heights && negb unorm then [lab +s "_unorm:"; nth 0 words ""; "UNORMALIZED"]%string
    else [lab +s ":"; nth 0 words ""%string] ++ (if unorm then ["UNORMALIZED"%string] else []) in
  let inp := inp0 ++ skipn 1 words ++ (if heights then ["HEIGHTS=" +s hstr]%string else []) in
  let actions2 := actions1 ++ [inp] in
  if heights && negb unorm
  then actions2 ++ [[lab +s ":"; "MATHEVAL"; "ARG1=" +s lab +s "_unorm"; "ARG2=" +s lab +s "_hsum";
                     "FUNC=x/y"; "PERIODIC=NO"]]%string
  else actions2.


Section Setup.

(** [getPntrToArgument(i)->getNumberOfValues(getLabel())]. *)
Variable nv : nat -> nat.



End Setup.


(** [buffer[k] += x]; out of range the source is undefined. *)
Definition add_at (buffer : list Q) (k : nat) (x : Q) : list Q :=
  upd buffer k (nth k buffer 0 + x)%Q.

(** [HistogramBase::gatherGridAccumulators] when [one_kernel_at_a_time]:
    [value] is [myvals.get(valout)] and [der i] is
    [myvals.getDerivative(valout, i)]. *)
Definition gather_one_kernel (nder code bufstart : nat) (value : Q) (der : nat -> Q)
           (buffer : list Q) : list Q :=
  let istart := bufstart + (1 + nder) * code in
  fold_left (fun b i => add_at b (istart + 1 + i) (der i)) (seq 0 nder)
            (add_at buffer istart value).

End HistogramBase.

(** ** Concrete inputs for the examples below *)

(** A chain of three strand pairs whose marker atoms are 1, 2 and 3 apart. *)
Definition strands_example_distance (a b : SecondaryStructureRMSD.Vector) :=
  SecondaryStructureRMSD.mkVector (SecondaryStructureRMSD.vx b - SecondaryStructureRMSD.vx a)
    (SecondaryStructureRMSD.vy b - SecondaryStructureRMSD.vy a)
    (SecondaryStructureRMSD.vz b - SecondaryStructureRMSD.vz a).

Definition strands_example_position (n : nat) : SecondaryStructureRMSD.Vector :=
  SecondaryStructureRMSD.mkVector (inject_Z (Z.of_nat n)) 0 0.

(** Two streamed arguments of rank 1, computed by the upstream actions 1 and
    2, which accept further actions in their chains. *)
Definition chain_example_arg (label : String.string) (producer : nat) : ActionWithArguments.Arg :=
  ActionWithArguments.mkArg 1 false false label false false false true [] producer false false.

Definition chain_example_args : list ActionWithArguments.Arg :=
  [chain_example_arg "a"%string 1; chain_example_arg "b"%string 2].

(** Task counts of the outputs of the upstream actions: action 1 has two
    outputs with 5 and 6 tasks. *)
Definition mismatched_ntasks (f : nat) : list nat := if f =? 1 then [5; 6] else [5].




Definition convert_example (n : nat) : String.string := if n =? 1 then "1"%string else "2"%string.

Definition more_than_keymap_example : list (String.string * String.string) :=
  [("MORE_THAN1"%string, "R_0=1"%string); ("MORE_THAN"%string, "R_0=2"%string)].

(** A grid of three points along one non-periodic dimension. *)
Definition line_value_example (i : nat) : Q := inject_Z (Z.of_nat i).


(** ** Generic facts *)

Lemma Qltb_iff (x y : Q) : Qltb x y = true <-> (x < y)%Q.
Proof.
  unfold Qltb. rewrite negb_true_iff. split; intro H.
  - apply Qnot_le_lt. intro H'. apply Qle_bool_iff in H'. congruence.
  - destruct (Qle_bool y x) eqn:E; [|reflexivity].
    apply Qle_bool_iff in E. exfalso. apply (Qlt_not_le x y); assumption.
Qed.

Lemma nth_upd_same {A} (l : list A) j x d :
  j < length l -> nth j (upd l j x) d = x.
Proof.
  revert j; induction l as [|y r IH]; intros j Hj; simpl in *; [lia|].
  destruct j; simpl; [reflexivity|]. apply IH; lia.
Qed.

Lemma nth_upd_other {A} (l : list A) j k x d :
  j <> k -> nth k (upd l j x) d = nth k l d.
Proof.
  revert j k; induction l as [|y r IH]; intros j k Hjk; simpl; [reflexivity|].
  destruct j, k; simpl; try reflexivity; [lia|]. apply IH; lia.
Qed.

Lemma length_upd {A} (l : list A) j x : length (upd l j x) = length l.
Proof.
  revert j; induction l as [|y r IH]; intros j; simpl; [reflexivity|].
  destruct j; simpl; [reflexivity|]. now rewrite IH.
Qed.

Lemma upd_nth_same {A} (l : list A) j d :
  upd l j (nth j l d) = l.
Proof.
  revert j; induction l as [|y r IH]; intros j; simpl; [reflexivity|].
  destruct j; simpl; [reflexivity|]. now rewrite IH.
Qed.

Lemma upd_upd {A} (l : list A) j x y :
  upd (upd l j x) j y = upd l j y.
Proof.
  revert j; induction l as [|z r IH]; intros j; simpl; [reflexivity|].
  destruct j; simpl; [reflexivity|]. now rewrite IH.
Qed.


(** * Properties *)

(** ** General facts about the helpers *)

Lemma upd_out {A} (l : list A) j x : length l <= j -> upd l j x = l.
Proof.
  revert j; induction l as [|y r IH]; intros j Hj; simpl in *; [reflexivity|].
  destruct j; [lia|]. simpl. rewrite IH; [reflexivity|lia].
Qed.

Lemma precedes_rev {A} (l : list A) x y : precedes l x y -> precedes (rev l) y x.
Proof.
  intros (l1 & l2 & l3 & ->).
  exists (rev l3), (rev l2), (rev l1).
  rewrite rev_app_distr. simpl. rewrite rev_app_distr. simpl.
  repeat rewrite <- app_assoc. reflexivity.
Qed.

(** ** The two loops of a step *)

Section LoopFacts.
Variable Action : Type.
Variable isActive : Action -> bool.

Lemma forward_loop_app (l1 l2 : list Action) :
  PlumedMain.forward_loop isActive (l1 ++ l2)
  = PlumedMain.forward_loop isActive l1 ++ PlumedMain.forward_loop isActive l2.
Proof.
  induction l1 as [|p r IH]; simpl; [reflexivity|].
  destruct (isActive p); simpl; now rewrite IH.
Qed.

Lemma forward_loop_rev (l : list Action) :
  PlumedMain.forward_loop isActive (rev l) = rev (PlumedMain.forward_loop isActive l).
Proof.
  induction l as [|p r IH]; simpl; [reflexivity|].
  rewrite forward_loop_app, IH. simpl.
  destruct (isActive p); simpl; [reflexivity|]. now rewrite app_nil_r.
Qed.

(** The actions applied in the backward loop are the actions calculated in
    the forward loop, reversed. *)
Lemma backward_is_reverse_of_forward (active : bool) (actionSet : list Action) :
  PlumedMain.backwardPropagate isActive active actionSet
  = rev (PlumedMain.justCalculate isActive active actionSet).
Proof.
  unfold PlumedMain.backwardPropagate, PlumedMain.justCalculate.
  destruct active; [apply forward_loop_rev|reflexivity].
Qed.

(** C2: if [A]'s [calculate()] runs before [B]'s in the forward loop of a
    step, then [B]'s [apply()] runs before [A]'s in the backward loop. *)
Theorem backward_apply_reverses_forward (active : bool) (actionSet : list Action)
        (A B : Action) :
  precedes (PlumedMain.justCalculate isActive active actionSet) A B ->
  precedes (PlumedMain.backwardPropagate isActive active actionSet) B A.
Proof.
  intro H. rewrite backward_is_reverse_of_forward. now apply precedes_rev.
Qed.
End LoopFacts.

Lemma backward_apply_reverses_forward_witness :
  precedes (PlumedMain.justCalculate (fun n => negb (n =? 2)) true [0; 1; 2; 3]) 1 3 /\
  precedes (PlumedMain.backwardPropagate (fun n => negb (n =? 2)) true [0; 1; 2; 3]) 3 1.
Proof.
  assert (H : precedes (PlumedMain.justCalculate (fun n => negb (n =? 2)) true [0; 1; 2; 3]) 1 3)
    by (exists [0], [], []; reflexivity).
  split; [exact H|].
  exact (backward_apply_reverses_forward nat (fun n => negb (n =? 2)) true [0; 1; 2; 3] 1 3 H).
Defined.

(** ** Contour finding: the task list *)

Lemma upd_restore_up (ind : list nat) j :
  upd (upd ind j (nth j ind 0 + 1)) j (nth j (upd ind j (nth j ind 0 + 1)) 0 - 1) = ind.
Proof.
  destruct (Nat.lt_ge_cases j (length ind)) as [Hj|Hj].
  - rewrite nth_upd_same by exact Hj. rewrite upd_upd.
    replace (nth j ind 0 + 1 - 1) with (nth j ind 0) by lia. apply upd_nth_same.
  - rewrite (upd_out ind j) by exact Hj. rewrite upd_out by exact Hj. reflexivity.
Qed.

Lemma upd_restore_wrap (ind : list nat) j nb :
  nth j ind 0 + 1 = nb -> upd (upd ind j 0) j (nb - 1) = ind.
Proof.
  intro E. rewrite upd_upd. replace (nb - 1) with (nth j ind 0) by lia. apply upd_nth_same.
Qed.

Lemma task_index_inj (r i j i' j' : nat) :
  j < r -> j' < r -> r * i + j = r * i' + j' -> i = i' /\ j = j'.
Proof.
  intros Hj Hj' E.
  assert (Hi : i = i').
  { destruct (Nat.lt_trichotomy i i') as [H|[H|H]]; [|exact H|]; exfalso.
    - assert (r * i + r <= r * i') by (replace (r * i + r) with (r * S i) by lia;
                                         apply Nat.mul_le_mono_l; lia). lia.
    - assert (r * i' + r <= r * i) by (replace (r * i' + r) with (r * S i') by lia;
                                         apply Nat.mul_le_mono_l; lia). lia. }
  subst i'. split; [reflexivity|lia].
Qed.

Section ContourFacts.
Variable nbin : list nat.
Variable isPeriodic : nat -> bool.
Variable getIndex : list nat -> nat.
Variable getIndices : nat -> list nat.
Variable value : nat -> Q.
Variable contour : Q.

Abbreviation rank := (FindContour.rank nbin).
Abbreviation neighbour := (FindContour.neighbour nbin).
Abbreviation examined := (FindContour.examined nbin isPeriodic).
Abbreviation dim_loop := (FindContour.dim_loop nbin isPeriodic getIndex value contour).
Abbreviation point_loop := (FindContour.point_loop nbin isPeriodic getIndex getIndices value contour).
Abbreviation setup := (FindContour.setupCurrentTaskList nbin isPeriodic getIndex getIndices value contour).

(** The tasks the inner loop adds for grid point [i]. *)
Abbreviation edge_tasks i ind val1 js :=
  (map (fun j => rank * i + j)
     (filter (fun j => examined ind j
                       && Qltb (val1 * (value (getIndex (neighbour ind j)) - contour)) 0) js)).

Lemma dim_loop_spec i val1 js ind tasks :
  dim_loop i val1 js ind false tasks = (ind, false, tasks ++ edge_tasks i ind val1 js).
Proof.
  revert tasks; induction js as [|j js IH]; intros tasks; simpl.
  - now rewrite app_nil_r.
  - assert (Ex : examined ind j = isPeriodic j || negb (nth j ind 0 + 1 =? nth j nbin 0))
      by reflexivity.
    assert (Nb : neighbour ind j = if nth j ind 0 + 1 =? nth j nbin 0 then upd ind j 0
                                   else upd ind j (nth j ind 0 + 1)) by reflexivity.
    rewrite Ex, Nb.
    destruct (Nat.eqb_spec (nth j ind 0 + 1) (nth j nbin 0)) as [E|E];
      destruct (isPeriodic j) eqn:P; simpl.
    + rewrite upd_restore_wrap by exact E. rewrite IH.
      destruct (Qltb (val1 * (value (getIndex (upd ind j 0)) - contour)) 0); simpl;
        unfold FindContour.addTaskToCurrentList; now rewrite <- ?app_assoc.
    + exact (IH tasks).
    + rewrite upd_restore_up. rewrite IH.
      destruct (Qltb (val1 * (value (getIndex (upd ind j (nth j ind 0 + 1))) - contour)) 0);
        simpl; unfold FindContour.addTaskToCurrentList; now rewrite <- ?app_assoc.
    + rewrite upd_restore_up. rewrite IH.
      destruct (Qltb (val1 * (value (getIndex (upd ind j (nth j ind 0 + 1))) - contour)) 0);
        simpl; unfold FindContour.addTaskToCurrentList; now rewrite <- ?app_assoc.
Qed.

Lemma point_loop_spec is tasks :
  point_loop is tasks
  = tasks ++ flat_map (fun i => edge_tasks i (getIndices i) (value i - contour)%Q (seq 0 rank)) is.
Proof.
  revert tasks; induction is as [|i is IH]; intros tasks; simpl.
  - now rewrite app_nil_r.
  - rewrite dim_loop_spec, IH. now rewrite app_assoc.
Qed.

(** C3: a task [rank*i + j] is in the task list built by
    [setupCurrentTaskList] exactly when [i] is a grid point, [j] a
    dimension, the edge from [i] along [j] does not leave the grid along a
    non-periodic dimension, and [(f(i) - c) * (f(k) - c) < 0] for the
    neighbour [k] of [i] along [j]; in particular no edge with an end
    where [f] equals [c] is listed. *)
Theorem contour_edge_iff_strict_sign_change (npoints : nat) :
  (forall t, In t (setup npoints []) <->
     exists i j, t = rank * i + j /\ i < npoints /\ j < rank /\
       examined (getIndices i) j = true /\
       ((value i - contour) * (value (getIndex (neighbour (getIndices i) j)) - contour) < 0)%Q)
  /\
  (forall i j, i < npoints -> j < rank ->
     (value i == contour \/ value (getIndex (neighbour (getIndices i) j)) == contour)%Q ->
     ~ In (rank * i + j) (setup npoints [])).
Proof.
  assert (Hall : forall t, In t (setup npoints []) <->
     exists i j, t = rank * i + j /\ i < npoints /\ j < rank /\
       examined (getIndices i) j = true /\
       ((value i - contour) * (value (getIndex (neighbour (getIndices i) j)) - contour) < 0)%Q).
  { intro t. unfold FindContour.setupCurrentTaskList. rewrite point_loop_spec. simpl.
    rewrite in_flat_map. split.
    - intros (i & Hi & Ht). apply in_map_iff in Ht as (j & <- & Hj).
      apply filter_In in Hj as (Hj & Hc). apply andb_true_iff in Hc as (He & Hq).
      apply in_seq in Hi. apply in_seq in Hj.
      exists i, j. repeat split; try lia; [exact He|]. now apply Qltb_iff.
    - intros (i & j & -> & Hi & Hj & He & Hq). exists i. split; [apply in_seq; lia|].
      apply in_map_iff. exists j. split; [reflexivity|].
      apply filter_In. split; [apply in_seq; lia|].
      apply andb_true_iff. split; [exact He|]. now apply Qltb_iff. }
  split; [exact Hall|].
  intros i j Hi Hj Heq Hin. apply Hall in Hin as (i' & j' & E & Hi' & Hj' & _ & Hq).
  destruct (task_index_inj rank i j i' j' Hj Hj' E) as [<- <-].
  destruct Heq as [Heq|Heq].
  - assert (Z : (value i - contour == 0)%Q) by (rewrite Heq; ring).
    rewrite Z in Hq. rewrite Qmult_0_l in Hq. apply (Qlt_irrefl 0). exact Hq.
  - assert (Z : (value (getIndex (neighbour (getIndices i) j)) - contour == 0)%Q)
      by (rewrite Heq; ring).
    rewrite Z in Hq. rewrite Qmult_0_r in Hq. apply (Qlt_irrefl 0). exact Hq.
Qed.

End ContourFacts.

(** The example of the spec: a periodic 1-D grid with values 0.2, 0.6, 0.3
    and isovalue 0.5; the edges 0 -> 1 and 1 -> 2 are listed, the edge
    2 -> 0 is not. *)
Example contour_three_point_example :
  FindContour.setupCurrentTaskList [3] (fun _ => true) (fun ind => hd 0 ind) (fun i => [i])
    (fun i => nth i [2 # 10; 6 # 10; 3 # 10]%Q 0%Q) (5 # 10) 3 [] = [0; 1].
Proof. vm_compute. reflexivity. Qed.

(** ** Contour finding: the search along one edge *)

Lemma bisect_between (g : Q -> Q) n : forall lo hi : Q,
  (lo < hi)%Q -> (lo < FindContour.bisect g n lo hi < hi)%Q.
Proof.
  induction n as [|n IH]; intros lo hi H; simpl;
    assert (M : (lo < (lo + hi) / 2 /\ (lo + hi) / 2 < hi)%Q)
      by (unfold Qdiv; change (/ 2)%Q with (1 # 2)%Q; split; lra).
  - exact M.
  - destruct (Qle_bool (g lo * g ((lo + hi) / 2)) 0)%Q.
    + destruct (IH lo ((lo + hi) / 2)%Q (proj1 M)). split; [assumption|].
      apply Qlt_trans with ((lo + hi) / 2)%Q; [assumption|exact (proj2 M)].
    + destruct (IH ((lo + hi) / 2)%Q hi (proj2 M)). split; [|assumption].
      apply Qlt_trans with ((lo + hi) / 2)%Q; [exact (proj1 M)|assumption].
Qed.

Lemma nth_combine {A B} (l1 : list A) (l2 : list B) k a b :
  length l1 = length l2 -> nth k (combine l1 l2) (a, b) = (nth k l1 a, nth k l2 b).
Proof.
  revert l2 k; induction l1 as [|x r IH]; intros l2 k E; destruct l2 as [|y r2]; simpl in *;
    try discriminate; destruct k; try reflexivity.
  - apply IH. lia.
Qed.

Lemma nth_along point direction t k :
  length point = length direction -> k < length point ->
  nth k (FindContour.along point direction t) 0%Q
  = (nth k point 0 + t * nth k direction 0)%Q.
Proof.
  unfold FindContour.along. revert direction k.
  induction point as [|x r IH]; intros direction k E Hk; simpl in *; [lia|].
  destruct direction as [|y r2]; simpl in *; [discriminate|].
  destruct k; simpl; [reflexivity|]. apply IH; lia.
Qed.

Lemma nth_repeat_upd (n g k : nat) (v : Q) :
  g < n -> nth k (upd (repeat 0%Q n) g v) 0%Q = if k =? g then v else 0%Q.
Proof.
  intro Hg. destruct (Nat.eqb_spec k g) as [->|Hne].
  - apply nth_upd_same. now rewrite repeat_length.
  - rewrite nth_upd_other by lia.
    destruct (Nat.lt_ge_cases k n).
    + now apply nth_repeat.
    + apply nth_overflow. now rewrite repeat_length.
Qed.

Section SearchFacts.
Variable grank : nat.
Variable spacing : list Q.
Variable getGridPointCoordinates : nat -> list Q.
Variable field : list Q -> Q.
Variable contour : Q.
Variable root_iters : nat.

Abbreviation performTask :=
  (FindContour.performTask grank spacing getGridPointCoordinates field contour root_iters).
Abbreviation findContour := (FindContour.findContour field contour root_iters).

(** C8: task [grank*i + j] searches from grid point [i] (the lower end of
    its edge) along the direction whose only nonzero component is
    [0.999999999] times the spacing of dimension [j]; the point found keeps
    every other coordinate of grid point [i] and lies strictly between
    grid point [i] and the next grid point along [j]; it is a function of
    the task alone. *)
Theorem contour_search_strictly_inside_edge (i j : nat)
        (Hj : j < grank) (Hh : (0 < nth j spacing 0)%Q)
        (Hlen : length (getGridPointCoordinates i) = grank) :
  let current := grank * i + j in
  let point := getGridPointCoordinates i in
  let direction := FindContour.search_direction grank spacing current in
  let found := performTask current in
  performTask current = findContour direction point /\
  (forall k, nth k direction 0%Q
             = if k =? j then ((999999999 # 1000000000) * nth j spacing 0)%Q else 0%Q) /\
  length found = grank /\
  (forall k, k < grank -> k <> j -> (nth k found 0 == nth k point 0)%Q) /\
  (nth j point 0 < nth j found 0 < nth j point 0 + nth j spacing 0)%Q.
Proof.
  intros current point direction found.
  assert (Hdiv : current / grank = i).
  { unfold current. rewrite Nat.mul_comm, Nat.div_add_l by lia.
    rewrite Nat.div_small by exact Hj. lia. }
  assert (Hmod : current mod grank = j).
  { unfold current. rewrite Nat.add_comm, Nat.mul_comm, Nat.Div0.mod_add.
    apply Nat.mod_small. exact Hj. }
  assert (Hdir : forall k, nth k direction 0%Q
             = if k =? j then ((999999999 # 1000000000) * nth j spacing 0)%Q else 0%Q).
  { intro k. unfold direction, FindContour.search_direction. rewrite Hmod.
    now apply nth_repeat_upd. }
  assert (Hdlen : length direction = grank).
  { unfold direction, FindContour.search_direction. now rewrite length_upd, repeat_length. }
  assert (Hfound : found = findContour direction point).
  { unfold found, FindContour.performTask. fold current. rewrite Hdiv.
    reflexivity. }
  set (t := FindContour.bisect
              (fun t => (field (FindContour.along point direction t) - contour)%Q)
              root_iters 0 1).
  assert (Ht : (0 < t < 1)%Q) by (apply bisect_between; reflexivity).
  assert (Hf : found = FindContour.along point direction t) by exact Hfound.
  assert (E : length point = length direction) by (unfold point; lia).
  split; [exact Hfound|]. split; [exact Hdir|]. split.
  { rewrite Hf. unfold FindContour.along. rewrite length_map, length_combine. lia. }
  split.
  - intros k Hk Hkj. rewrite Hf, nth_along by (unfold point in *; lia).
    rewrite Hdir. destruct (Nat.eqb_spec k j); [contradiction|]. ring.
  - rewrite Hf, nth_along by (unfold point in *; lia).
    rewrite Hdir, Nat.eqb_refl.
    set (h := nth j spacing 0%Q) in *.
    set (c := (999999999 # 1000000000)%Q).
    assert (Hc : (0 < c * h)%Q) by (apply Qmult_lt_0_compat; [reflexivity|exact Hh]).
    assert (Hch : (c * h < h)%Q).
    { apply Qlt_le_trans with (1 * h)%Q; [|lra].
      apply Qmult_lt_r; [exact Hh|reflexivity]. }
    assert (Htc : (t * (c * h) < c * h)%Q).
    { apply Qlt_le_trans with (1 * (c * h))%Q; [|lra].
      apply Qmult_lt_r; [exact Hc|exact (proj2 Ht)]. }
    assert (Hpos : (0 < t * (c * h))%Q) by (apply Qmult_lt_0_compat; [exact (proj1 Ht)|exact Hc]).
    split; lra.
Qed.
End SearchFacts.

Lemma contour_search_strictly_inside_edge_witness :
  1 < 2 /\ (0 < nth 1 [1 # 2; 1 # 4] 0)%Q /\ length [0; 0]%Q = 2 /\
  (nth 1 [0; 0]%Q 0 <
     nth 1 (FindContour.performTask 2 [1 # 2; 1 # 4] (fun _ => [0; 0]%Q)
              (fun p => nth 1 p 0%Q) (1 # 10) 5 (2 * 0 + 1)) 0
   < nth 1 [0; 0]%Q 0 + nth 1 [1 # 2; 1 # 4] 0)%Q.
Proof.
  assert (H1 : 1 < 2) by lia.
  assert (H2 : (0 < nth 1 [1 # 2; 1 # 4] 0)%Q) by reflexivity.
  assert (H3 : length (A := Q) [0; 0]%Q = 2) by reflexivity.
  split; [exact H1|]. split; [exact H2|]. split; [exact H3|].
  exact (proj2 (proj2 (proj2 (proj2
    (contour_search_strictly_inside_edge 2 [1 # 2; 1 # 4] (fun _ => [0; 0]%Q)
       (fun p => nth 1 p 0%Q) (1 # 10) 5 0 1 H1 H2 H3))))).
Defined.

(** ** Secondary structure: the STRANDS_CUTOFF pre-filter *)

Section StrandsFacts.
Variable pbcDistance : SecondaryStructureRMSD.Vector -> SecondaryStructureRMSD.Vector ->
                       SecondaryStructureRMSD.Vector.
Variable getPosition : nat -> SecondaryStructureRMSD.Vector.
Variable getAtomIndex : nat -> nat -> nat.
Variable align_atom_1 align_atom_2 : nat.
Variable label : String.string.
Variable rmsd : nat -> Q.

Abbreviation strands_distance2 := (SecondaryStructureRMSD.strands_distance2 pbcDistance getPosition
                         getAtomIndex align_atom_1 align_atom_2).
Abbreviation flag_loop := (SecondaryStructureRMSD.flag_loop pbcDistance getPosition
                             getAtomIndex align_atom_1 align_atom_2).
Abbreviation buildCurrentTaskList := (SecondaryStructureRMSD.buildCurrentTaskList pbcDistance getPosition
                         getAtomIndex align_atom_1 align_atom_2 label).
Abbreviation runAllTasks := (SecondaryStructureRMSD.runAllTasks pbcDistance getPosition
                       getAtomIndex align_atom_1 align_atom_2 label rmsd).

Lemma flag_loop_nth c k tflags i :
  i < length tflags ->
  nth i (flag_loop c k tflags) 0 = if Qltb (strands_distance2 (k + i)) c then 1 else nth i tflags 0.
Proof.
  revert k i; induction tflags as [|f r IH]; intros k i Hi; simpl in *; [lia|].
  destruct i as [|i].
  - now rewrite Nat.add_0_r.
  - rewrite IH by lia. now replace (S k + i) with (k + S i) by lia.
Qed.

Lemma flag_loop_length c k tflags : length (flag_loop c k tflags) = length tflags.
Proof. revert k; induction tflags; intros k; simpl; [reflexivity|]. now rewrite IHtflags. Qed.

Lemma flag_loop_idempotent c k tflags :
  flag_loop c k (flag_loop c k tflags) = flag_loop c k tflags.
Proof.
  revert k; induction tflags as [|f r IH]; intros k; simpl; [reflexivity|].
  rewrite IH. now destruct (Qltb (strands_distance2 k) c).
Qed.

Lemma active_tasks_spec c n :
  (0 < c)%Q -> forall i, In i (SecondaryStructureRMSD.activeTasks pbcDistance getPosition
                          getAtomIndex align_atom_1 align_atom_2 label c n)
                       <-> i < n /\ (strands_distance2 i < c)%Q.
Proof.
  intros Hc i. unfold SecondaryStructureRMSD.activeTasks, SecondaryStructureRMSD.buildCurrentTaskList.
  assert (Hb : Qltb 0 c = true) by now apply Qltb_iff.
  rewrite Hb. simpl. rewrite filter_In, in_seq. split.
  - intros [Hi Hf]. split; [lia|].
    rewrite flag_loop_nth in Hf by (rewrite repeat_length; lia). rewrite Nat.add_0_l in Hf.
    destruct (Qltb (strands_distance2 i) c) eqn:EQ; [now apply Qltb_iff|].
    rewrite nth_repeat in Hf. simpl in Hf. discriminate.
  - intros [Hi Hd]. split; [lia|].
    rewrite flag_loop_nth by (rewrite repeat_length; lia). rewrite Nat.add_0_l.
    apply Qltb_iff in Hd. now rewrite Hd.
Qed.

(** C5: with [s_cutoff2 > 0], the tasks the RMSD is computed for are the
    tasks whose two marker atoms are at squared distance strictly below
    [s_cutoff2]; every other task keeps the value 0. *)
Theorem strands_cutoff_selects_tasks (s_cutoff2 : Q) (ntasks : nat)
        (Hc : (0 < s_cutoff2)%Q) :
  (forall i, In i (fst (runAllTasks s_cutoff2 ntasks)) <-> i < ntasks /\ (strands_distance2 i < s_cutoff2)%Q) /\
  (forall i, i < ntasks -> ~ (strands_distance2 i < s_cutoff2)%Q -> nth i (snd (runAllTasks s_cutoff2 ntasks)) 0%Q = 0%Q) /\
  (forall i, i < ntasks -> (strands_distance2 i < s_cutoff2)%Q -> nth i (snd (runAllTasks s_cutoff2 ntasks)) 0%Q = rmsd i).
Proof.
  pose proof (active_tasks_spec s_cutoff2 ntasks Hc) as A.
  unfold SecondaryStructureRMSD.runAllTasks; simpl.
  split; [exact A|].
  assert (Nth : forall (f : nat -> Q) i, i < ntasks -> nth i (map f (seq 0 ntasks)) 0%Q = f i).
  { intros f i Hi.
    rewrite nth_indep with (d' := f 0) by (rewrite length_map, length_seq; exact Hi).
    rewrite map_nth, seq_nth by exact Hi. reflexivity. }
  split.
  - intros i Hi Hn. rewrite Nth by exact Hi.
    destruct (existsb (Nat.eqb i) _) eqn:E; [|reflexivity].
    apply existsb_exists in E as (x & Hx & Ex). apply Nat.eqb_eq in Ex. subst x.
    apply A in Hx. exfalso. exact (Hn (proj2 Hx)).
  - intros i Hi Hd. rewrite Nth by exact Hi.
    destruct (existsb (Nat.eqb i) _) eqn:E; [reflexivity|].
    exfalso. assert (Hin : In i (SecondaryStructureRMSD.activeTasks pbcDistance getPosition
                   getAtomIndex align_atom_1 align_atom_2 label s_cutoff2 ntasks))
      by (apply A; split; assumption).
    assert (existsb (Nat.eqb i) (SecondaryStructureRMSD.activeTasks pbcDistance getPosition
                   getAtomIndex align_atom_1 align_atom_2 label s_cutoff2 ntasks) = true)
      by (apply existsb_exists; exists i; split; [exact Hin|apply Nat.eqb_refl]).
    congruence.
Qed.

Lemma build_twice_same_flags c sel tflags :
  snd (buildCurrentTaskList c (fst (buildCurrentTaskList c sel tflags)) (snd (buildCurrentTaskList c sel tflags))) = snd (buildCurrentTaskList c sel tflags).
Proof.
  unfold SecondaryStructureRMSD.buildCurrentTaskList.
  destruct (Qltb 0 c); simpl; [apply flag_loop_idempotent|reflexivity].
Qed.
End StrandsFacts.

Lemma strands_cutoff_selects_tasks_witness :
  (0 < 5)%Q /\
  In 1 (fst (SecondaryStructureRMSD.runAllTasks strands_example_distance strands_example_position
               (fun i k => 10 * i + k * (i + 1)) 0 1 "ss"%string (fun _ => 1%Q) 5 3)) /\
  ~ In 2 (fst (SecondaryStructureRMSD.runAllTasks strands_example_distance strands_example_position
               (fun i k => 10 * i + k * (i + 1)) 0 1 "ss"%string (fun _ => 1%Q) 5 3)).
Proof.
  assert (Hc : (0 < 5)%Q) by reflexivity.
  pose proof (proj1 (strands_cutoff_selects_tasks strands_example_distance strands_example_position
               (fun i k => 10 * i + k * (i + 1)) 0 1 "ss"%string (fun _ => 1%Q) 5 3 Hc)) as H.
  split; [exact Hc|]. split.
  - apply H. split; [lia|]. reflexivity.
  - intro Hin. apply H in Hin as [_ Hd]. vm_compute in Hd. discriminate.
Defined.

(** ** Task-list construction is idempotent *)

(** C9: running [FindContour::setupCurrentTaskList] a second time on the same
    grid leaves the same set of tasks, and running
    [SecondaryStructureRMSD::buildCurrentTaskList] a second time on the same
    positions leaves the same task flags. *)
Theorem task_list_construction_idempotent
  (nbin : list nat) (isPeriodic : nat -> bool) (getIndex : list nat -> nat)
  (getIndices : nat -> list nat) (value : nat -> Q) (contour : Q) (npoints : nat) (tasks : list nat)
  pbcDistance getPosition getAtomIndex align_atom_1 align_atom_2 label
  (s_cutoff2 : Q) (sel : list String.string) (tflags : list nat) :
  (forall t,
     In t (FindContour.setupCurrentTaskList nbin isPeriodic getIndex getIndices value contour npoints
             (FindContour.setupCurrentTaskList nbin isPeriodic getIndex getIndices value contour
                npoints tasks))
     <-> In t (FindContour.setupCurrentTaskList nbin isPeriodic getIndex getIndices value contour
                npoints tasks)) /\
  (let b := SecondaryStructureRMSD.buildCurrentTaskList pbcDistance getPosition getAtomIndex
              align_atom_1 align_atom_2 label s_cutoff2 sel tflags in
   snd (SecondaryStructureRMSD.buildCurrentTaskList pbcDistance getPosition getAtomIndex
          align_atom_1 align_atom_2 label s_cutoff2 (fst b) (snd b)) = snd b).
Proof.
  split; [|apply build_twice_same_flags].
  intro t. unfold FindContour.setupCurrentTaskList. rewrite !point_loop_spec.
  rewrite <- app_assoc. rewrite !in_app_iff. tauto.
Qed.

(** ** Adjacency matrices: the nine box-derivative slots *)

Lemma eqb_add_cancel_l (a m i : nat) : (a + m =? a + i) = (m =? i).
Proof.
  destruct (Nat.eqb_spec (a + m) (a + i)), (Nat.eqb_spec m i); auto; lia.
Qed.

Lemma addBoxDerivatives_slots natoms w (vir : AdjacencyMatrixBase.Tensor)
      (d : AdjacencyMatrixBase.Derivs) v k :
  AdjacencyMatrixBase.addBoxDerivatives false natoms w vir d v k =
  if (v =? w) && (3 * natoms <=? k) && (k <? 3 * natoms + 9)
  then Qplus (d v k) (vir ((k - 3 * natoms) / 3) ((k - 3 * natoms) mod 3))
  else d v k.
Proof.
  unfold AdjacencyMatrixBase.addBoxDerivatives, AdjacencyMatrixBase.addDerivative.
  destruct (v =? w); cbn [andb]; [|reflexivity].
  destruct (le_lt_dec (3 * natoms) k) as [Hlo|Hlo].
  - destruct (le_lt_dec (3 * natoms + 9) k) as [Hhi|Hhi].
    + repeat rewrite (proj2 (Nat.eqb_neq k _)) by lia.
      rewrite (proj2 (Nat.ltb_ge k _)) by lia. rewrite andb_false_r. reflexivity.
    + destruct (Nat.le_exists_sub (3 * natoms) k Hlo) as (m & Hm & _).
      assert (Hk : k = 3 * natoms + m) by lia. clear Hm. subst k. rewrite !eqb_add_cancel_l.
      replace (3 * natoms <=? 3 * natoms + m) with true by (symmetry; apply Nat.leb_le; lia).
      replace (3 * natoms + m <? 3 * natoms + 9) with true by (symmetry; apply Nat.ltb_lt; lia).
      replace (3 * natoms + m - 3 * natoms) with m by lia.
      do 9 (destruct m as [|m]; [reflexivity|]). lia.
  - repeat rewrite (proj2 (Nat.eqb_neq k _)) by lia.
    rewrite (proj2 (Nat.leb_gt _ k)) by lia. reflexivity.
Qed.

(** C4: when derivatives are calculated, [addBoxDerivatives] adds the virial
    [-Σ position_i ⊗ ∂w/∂r_i] of a pair weight to the derivatives of the
    weight's value at exactly the flat indices [3*natoms] to [3*natoms+8]
    (entry (a,b) at [3*natoms+3a+b]); every other slot, of this value or any
    other, is left unchanged. *)
Theorem adjacency_box_derivative_slots (doNotCalculateDerivatives : bool)
        (natoms w_index : nat) (pos dw : list (nat -> Q)) (d : AdjacencyMatrixBase.Derivs)
        (Hcalc : doNotCalculateDerivatives = false) :
  forall v k,
    AdjacencyMatrixBase.addBoxDerivatives doNotCalculateDerivatives natoms w_index
      (AdjacencyMatrixBase.weight_virial pos dw) d v k =
    if (v =? w_index) && (3 * natoms <=? k) && (k <? 3 * natoms + 9)
    then Qplus (d v k) (Qopp (fold_right Qplus 0%Q
                      (map (fun pd => Qmult (fst pd ((k - 3 * natoms) / 3)) (snd pd ((k - 3 * natoms) mod 3)))
                           (combine pos dw))))
    else d v k.
Proof.
  subst doNotCalculateDerivatives. intros v k. apply addBoxDerivatives_slots.
Qed.

Lemma adjacency_box_derivative_slots_witness :
  false = false /\
  AdjacencyMatrixBase.addBoxDerivatives false 2 0
    (AdjacencyMatrixBase.weight_virial [fun _ => 1%Q; fun _ => 2%Q] [fun _ => 3%Q; fun _ => (-3)%Q])
    (fun _ _ => 0%Q) 0 7
  = Qplus 0 (Qopp (fold_right Qplus 0%Q
              (map (fun pd => Qmult (fst pd ((7 - 3 * 2) / 3)) (snd pd ((7 - 3 * 2) mod 3)))
                   (combine [fun _ : nat => 1%Q; fun _ => 2%Q] [fun _ : nat => 3%Q; fun _ => (-3)%Q])))).
Proof.
  split; [reflexivity|].
  exact (adjacency_box_derivative_slots false 2 0 [fun _ => 1%Q; fun _ => 2%Q]
           [fun _ => 3%Q; fun _ => (-3)%Q] (fun _ _ => 0%Q) eq_refl 0 7).
Defined.

(** ** Multi-colvars: repeated atoms are counted once *)

Lemma forallb_false_exists {A} (p : A -> bool) l :
  forallb p l = false -> exists x, In x l /\ p x = false.
Proof.
  induction l as [|x l IH]; simpl; [discriminate|].
  destruct (p x) eqn:E; simpl.
  - intro H. destruct (IH H) as (y & Hy & Py). exists y; auto.
  - intros _. exists x; auto.
Qed.

Lemma NoDup_map_injective {A B} (f : A -> B) l :
  (forall x y, f x = f y -> x = y) -> NoDup l -> NoDup (map f l).
Proof.
  intros Hf Hl; induction Hl as [|x l Hx Hl IH]; simpl; constructor; [|exact IH].
  intro Hin. apply in_map_iff in Hin as (y & Hy & Hyl). apply Hf in Hy. subst y. contradiction.
Qed.

Lemma NoDup_flat_map_disjoint {A B} (f : A -> list B) l :
  NoDup l -> (forall x, In x l -> NoDup (f x)) ->
  (forall x y z, In x l -> In y l -> x <> y -> In z (f x) -> ~ In z (f y)) ->
  NoDup (flat_map f l).
Proof.
  induction l as [|x l IH]; intros Hl Hf Hd; simpl; [constructor|].
  inversion Hl as [|? ? Hx Hl']; subst.
  apply NoDup_app.
  - apply Hf; left; reflexivity.
  - apply IH; [exact Hl'| intros y Hy; apply Hf; right; exact Hy |].
    intros a b z Ha Hb; apply Hd; right; assumption.
  - intros z Hz Hin. apply in_flat_map in Hin as (y & Hy & Hzy).
    apply (Hd x y z); [left; reflexivity | right; exact Hy | intro; subst; contradiction | exact Hz | exact Hzy].
Qed.

Section MultiColvarFacts.
Variable ablocks : list (list nat).
Variable posInStream : nat -> nat.

Abbreviation atom_of := (MultiColvarBase.atom_of ablocks).
Abbreviation newi := (MultiColvarBase.newi ablocks).
Abbreviation first_positions := (MultiColvarBase.first_positions ablocks).

Lemma newi_true_distinct task i j :
  newi task i = true -> j < i -> atom_of task j <> atom_of task i.
Proof.
  unfold MultiColvarBase.newi. intros H Hj E.
  rewrite forallb_forall in H. specialize (H j (proj2 (in_seq i 0 j) ltac:(lia))).
  rewrite E, Nat.eqb_refl in H. discriminate.
Qed.

Lemma first_positions_NoDup_atoms task :
  NoDup (map (atom_of task) (first_positions task)).
Proof.
  unfold MultiColvarBase.first_positions. generalize (length ablocks) as L.
  induction L as [|L IH]; [constructor|].
  rewrite seq_S, filter_app, map_app. simpl.
  destruct (newi task L) eqn:E; simpl; [|rewrite app_nil_r; exact IH].
  apply NoDup_app; [exact IH | repeat constructor; intros [] |].
  intros a Ha [Hb|[]]. subst a. apply in_map_iff in Ha as (j & Hj & Hjin).
  apply filter_In in Hjin as [Hjin _]. apply in_seq in Hjin.
  exact (newi_true_distinct task L j E ltac:(lia) Hj).
Qed.

Lemma first_positions_in task i :
  In i (first_positions task) <-> i < length ablocks /\ newi task i = true.
Proof.
  unfold MultiColvarBase.first_positions. rewrite filter_In, in_seq. split; intros [H1 H2]; split; auto; lia.
Qed.

Lemma first_positions_cover task i :
  i < length ablocks ->
  exists i0, In i0 (first_positions task) /\ atom_of task i0 = atom_of task i.
Proof.
  induction i as [i IH] using (well_founded_induction lt_wf). intros Hi.
  destruct (newi task i) eqn:E.
  - exists i. split; [apply first_positions_in; auto | reflexivity].
  - apply forallb_false_exists in E as (j & Hj & Hp). apply in_seq in Hj.
    cbv beta in Hp. apply negb_false_iff, Nat.eqb_eq in Hp.
    destruct (IH j ltac:(lia) ltac:(lia)) as (i0 & H0 & E0).
    exists i0. split; [exact H0 | congruence].
Qed.

Lemma first_positions_atoms_distinct task i i' :
  In i (first_positions task) -> In i' (first_positions task) -> i <> i' ->
  atom_of task i <> atom_of task i'.
Proof.
  intros Hi Hi' Hne E. apply first_positions_in in Hi as [_ Ni].
  apply first_positions_in in Hi' as [_ Ni'].
  destruct (Nat.lt_total i i') as [Hlt|[Heq|Hgt]]; [|contradiction|].
  - exact (newi_true_distinct task i' i Ni' Hlt E).
  - exact (newi_true_distinct task i i' Ni Hgt (eq_sym E)).
Qed.

Lemma virial_loop_first_positions task fpositions der is v :
  MultiColvarBase.virial_loop ablocks task fpositions der is v =
  fold_left (fun v i => MultiColvarBase.sub_outer v (nth i fpositions (fun _ => 0%Q))
                          (fun b => der (3 * atom_of task i + b)))
            (filter (newi task) is) v.
Proof.
  revert v; induction is as [|i is IH]; intros v; simpl; [reflexivity|].
  destruct (newi task i); simpl; apply IH.
Qed.

Abbreviation atom_block := (MultiColvarBase.atom_block ablocks posInStream).
Abbreviation virial_block := (MultiColvarBase.virial_block posInStream).

Lemma updates_split nderivatives natoms ncomponents task :
  nderivatives <> natoms ->
  MultiColvarBase.performTask_updates ablocks posInStream false nderivatives natoms
    ncomponents task =
  flat_map (atom_block ncomponents task) (first_positions task)
  ++ virial_block natoms ncomponents.
Proof.
  intros Hn. unfold MultiColvarBase.performTask_updates.
  rewrite (proj2 (Nat.eqb_neq _ _) Hn). cbn [orb]. f_equal.
  unfold MultiColvarBase.first_positions.
  induction (seq 0 (length ablocks)) as [|i is IH]; [reflexivity|].
  cbn [flat_map filter]. destruct (newi task i); cbn [flat_map]; [|exact IH].
  rewrite IH. reflexivity.
Qed.

Lemma in_atom_block ncomponents task i p :
  In p (atom_block ncomponents task i) <->
  exists j k, j < ncomponents /\ k < 3 /\ p = (posInStream j, 3 * atom_of task i + k).
Proof.
  unfold MultiColvarBase.atom_block. rewrite in_flat_map. split.
  - intros (j & Hj & Hp). apply in_seq in Hj. cbn [In] in Hp.
    destruct Hp as [Hp|[Hp|[Hp|[]]]]; subst p; exists j.
    + exists 0. split; [lia|]. split; [lia|]. now rewrite Nat.add_0_r.
    + exists 1. split; [lia|]. split; [lia|]. reflexivity.
    + exists 2. split; [lia|]. split; [lia|]. reflexivity.
  - intros (j & k & Hj & Hk & Hp). exists j. split; [apply in_seq; lia|]. subst p.
    destruct k as [|[|[|k]]]; cbn [In]; [rewrite Nat.add_0_r| | |lia]; tauto.
Qed.

(** C10: when an atom index occurs at several positions of a task's atom
    list, [MultiColvarBase::performTask] registers each of its three
    derivative slots exactly once per component (the list of
    [updateIndex] calls has no repetition and contains every slot of every
    atom of the task), and the virial of [setBoxDerivativesNoPbc] is the
    sum of one outer product for each distinct atom: it runs over the
    first position of every atom, and these carry pairwise different
    atoms that cover all atoms of the task. *)
Theorem multicolvar_repeated_atom_counted_once
        (nderivatives natoms ncomponents task : nat)
        (fpositions : list (nat -> Q)) (der : nat -> Q)
        (Hder : nderivatives <> natoms)
        (Hinj : forall j j', j < ncomponents -> j' < ncomponents ->
                posInStream j = posInStream j' -> j = j')
        (Hat : forall i, i < length ablocks -> atom_of task i < natoms) :
  NoDup (MultiColvarBase.performTask_updates ablocks posInStream false nderivatives natoms
           ncomponents task) /\
  (forall i j k, i < length ablocks -> j < ncomponents -> k < 3 ->
     In (posInStream j, 3 * atom_of task i + k)
        (MultiColvarBase.performTask_updates ablocks posInStream false nderivatives natoms
           ncomponents task)) /\
  MultiColvarBase.setBoxDerivativesNoPbc ablocks false task fpositions der =
    Some (fold_left (fun v i => MultiColvarBase.sub_outer v (nth i fpositions (fun _ => 0%Q))
                                  (fun b => der (3 * atom_of task i + b)))
                    (first_positions task) MultiColvarBase.zero_tensor) /\
  NoDup (map (atom_of task) (first_positions task)) /\
  (forall i, i < length ablocks -> In (atom_of task i) (map (atom_of task) (first_positions task))).
Proof.
  split; [|split; [|split; [|split]]].
  - rewrite updates_split by exact Hder. apply NoDup_app.
    + apply NoDup_flat_map_disjoint.
      * unfold MultiColvarBase.first_positions. apply NoDup_filter, seq_NoDup.
      * intros i _. unfold MultiColvarBase.atom_block. apply NoDup_flat_map_disjoint.
        -- apply seq_NoDup.
        -- intros j _.
           constructor; [cbn [In]; intros [H|[H|[]]]; injection H; intros; lia|].
           constructor; [cbn [In]; intros [H|[]]; injection H; intros; lia|].
           constructor; [intros []|constructor].
        -- intros j j' z Hj Hj' Hne Hz Hz'. apply in_seq in Hj, Hj'. cbn [In] in Hz, Hz'.
           destruct Hz as [<-|[<-|[<-|[]]]]; destruct Hz' as [H|[H|[H|[]]]];
             injection H; intros; apply Hne, Hinj; (lia || congruence).
      * intros i i' z Hi Hi' Hne Hz Hz'.
        apply in_atom_block in Hz as (j & k & Hj & Hk & ->).
        apply in_atom_block in Hz' as (j' & k' & Hj' & Hk' & E).
        injection E; intros.
        apply (first_positions_atoms_distinct task i i' Hi Hi' Hne). lia.
    + unfold MultiColvarBase.virial_block. apply NoDup_flat_map_disjoint.
      * apply seq_NoDup.
      * intros j _. apply NoDup_map_injective; [intros x y H; injection H; lia | apply seq_NoDup].
      * intros j j' z Hj Hj' Hne Hz Hz'. apply in_seq in Hj, Hj'.
        apply in_map_iff in Hz as (x & <- & _). apply in_map_iff in Hz' as (y & E & _).
        injection E; intros. apply Hne, Hinj; (lia || congruence).
    + intros z Hz Hz'. apply in_flat_map in Hz as (i & Hi & Hz).
      apply in_atom_block in Hz as (j & k & Hj & Hk & ->).
      unfold MultiColvarBase.virial_block in Hz'. apply in_flat_map in Hz' as (j' & _ & Hz').
      apply in_map_iff in Hz' as (x & E & _). injection E; intros.
      apply first_positions_in in Hi as [Hi _]. specialize (Hat i Hi). lia.
  - intros i j k Hi Hj Hk. rewrite updates_split by exact Hder. apply in_or_app; left.
    destruct (first_positions_cover task i Hi) as (i0 & H0 & E0).
    apply in_flat_map. exists i0. split; [exact H0|].
    apply in_atom_block. exists j, k. rewrite E0. split; [exact Hj|split; [exact Hk|reflexivity]].
  - unfold MultiColvarBase.setBoxDerivativesNoPbc. rewrite virial_loop_first_positions.
    reflexivity.
  - apply first_positions_NoDup_atoms.
  - intros i Hi. destruct (first_positions_cover task i Hi) as (i0 & H0 & E0).
    rewrite <- E0. apply in_map. exact H0.
Qed.
End MultiColvarFacts.

Lemma multicolvar_repeated_atom_counted_once_witness :
  NoDup (MultiColvarBase.performTask_updates [[5]; [7]; [5]] (fun j => j) false 36 10 1 0).
Proof.
  assert (Hder : 36 <> 10) by lia.
  assert (Hat : forall i, i < length [[5]; [7]; [5]] ->
                MultiColvarBase.atom_of [[5]; [7]; [5]] 0 i < 10)
    by (intros i Hi; destruct i as [|[|[|i]]]; [cbv; lia | cbv; lia | cbv; lia | cbn in Hi; lia]).
  exact (proj1 (multicolvar_repeated_atom_counted_once [[5]; [7]; [5]] (fun j => j) 36 10 1 0 []
                  (fun _ => 0%Q) Hder (fun j j' _ _ H => H) Hat)).
Defined.

(** ** ActionWithArguments: stores, chaining decision and chain setup *)

Module ActionWithArgumentsFacts.
Import ActionWithArguments.

Ltac keep_in_app :=
  repeat match goal with
         | |- In _ (if ?b then _ else _) => destruct b
         | |- In ?x (?l ++ _) => apply in_or_app; left
         end.

Lemma rank_positions_in args from i :
  In i (rank_positions args from) <-> from <= i < length args /\ 0 < rank (arg args i).
Proof.
  unfold rank_positions. rewrite filter_In, in_seq, Nat.ltb_lt. lia.
Qed.

Lemma second_loop_fa_indep args argstart storing is st st' fa :
  snd (second_loop args argstart storing is st fa) = snd (second_loop args argstart storing is st' fa).
Proof.
  revert st st' fa; induction is as [|i is IH]; intros st st' fa; [reflexivity|].
  simpl. destruct (i <? argstart); [apply IH|].
  destruct (0 <? rank (arg args i)); apply IH.
Qed.

Lemma second_loop_keeps args argstart storing is st fa x :
  In x st -> In x (fst (second_loop args argstart storing is st fa)).
Proof.
  revert st fa; induction is as [|i is IH]; intros st fa Hx; [exact Hx|].
  simpl. destruct (i <? argstart); [apply IH; keep_in_app; exact Hx|].
  destruct (0 <? rank (arg args i)); apply IH; keep_in_app; exact Hx.
Qed.

Lemma second_loop_storing args argstart is st fa i :
  In i is -> argstart <= i -> In i (fst (second_loop args argstart true is st fa)).
Proof.
  revert st fa; induction is as [|j is IH]; intros st fa Hi Hle; [destruct Hi|].
  destruct Hi as [->|Hi].
  - simpl. replace (i <? argstart) with false by (symmetry; apply Nat.ltb_ge; lia).
    destruct (0 <? rank (arg args i)); apply second_loop_keeps;
      repeat first [ solve [apply in_or_app; right; left; reflexivity]
                   | match goal with |- In _ (if ?b then _ else _) => destruct b end
                   | apply in_or_app; left ].
  - simpl. destruct (j <? argstart); [apply IH; assumption|].
    destruct (0 <? rank (arg args j)); apply IH; assumption.
Qed.

Lemma first_loop_constants args al is ac st :
  (forall x, In x st -> In x (snd (first_loop args al is ac st))) /\
  (forall i, In i is -> isConstant (arg args i) = true ->
     In i (snd (first_loop args al is ac st)) \/ fst (fst (first_loop args al is ac st)) = true).
Proof.
  revert ac st; induction is as [|i is IH]; intros ac st.
  - split; [intros x Hx; exact Hx | intros i []].
  - simpl. destruct al; simpl; [| split; [intros x Hx; exact Hx | intros; right; reflexivity]].
    assert (Step : forall ac' st', (forall x, In x st -> In x st') ->
              (isConstant (arg args i) = true -> In i st') ->
              (forall x, In x st -> In x (snd (first_loop args true is ac' st'))) /\
              (forall k, In k (i :: is) -> isConstant (arg args k) = true ->
                 In k (snd (first_loop args true is ac' st')) \/
                 fst (fst (first_loop args true is ac' st')) = true)).
    { intros ac' st' Hsub Hi. destruct (IH ac' st') as [K R]. split.
      - intros x Hx. apply K, Hsub, Hx.
      - intros k [<-|Hk] Hc; [left; apply K, Hi, Hc | apply R; assumption]. }
    destruct (alwaysstore (arg args i)).
    + destruct (isConstant (arg args i) || prod_setup (arg args i)).
      * apply Step; intros; apply in_or_app; [left; assumption | right; left; reflexivity].
      * split; [intros x Hx; exact Hx | intros; right; reflexivity].
    + destruct (isConstant (arg args i)) eqn:Ec; apply Step.
      * intros; apply in_or_app; left; assumption.
      * intros _; apply in_or_app; right; left; reflexivity.
      * intros x Hx; exact Hx.
      * discriminate.
Qed.

Section ArgFacts.
Variable ntasks_of : nat -> list nat.
Variable checkForDependency : nat -> nat -> bool.
Variable getDependencies : nat -> list nat.
Variable actionSet : list nat.
Variable addActionToChain : String.string -> bool.

Abbreviation requestArguments :=
  (ActionWithArguments.requestArguments ntasks_of checkForDependency getDependencies actionSet).
Abbreviation chaining_decision :=
  (ActionWithArguments.chaining_decision ntasks_of checkForDependency getDependencies actionSet).
Abbreviation chain_loop :=
  (ActionWithArguments.chain_loop ntasks_of checkForDependency getDependencies actionSet).
Abbreviation setupActionInChain := (ActionWithArguments.setupActionInChain addActionToChain).
Abbreviation add_loop := (ActionWithArguments.add_loop addActionToChain).
Abbreviation histogram_chain := (ActionWithArguments.histogram_chain addActionToChain).

Lemma requestArguments_shape isAWV firstcall hasSERIAL allow_streams argstart args done_prev :
  args <> [] ->
  exists s0 ac st1 st2,
    first_loop args allow_streams (seq argstart (length args - argstart)) true [] = (s0, ac, st1) /\
    second_loop args argstart (s0 || ac) (seq 0 (length args)) st1 []
      = (st2, f_actions_of args allow_streams argstart) /\
    requestArguments isAWV firstcall hasSERIAL allow_streams argstart args done_prev =
      if firstcall && negb isAWV && negb hasSERIAL then Some (false, st2 ++ rank_positions args 0)
      else if negb firstcall && negb isAWV then Some (false, st2)
      else final_stores args argstart
             (chaining_decision (s0 || ac) (f_actions_of args allow_streams argstart) args st2).
Proof.
  intros Hne.
  destruct (first_loop args allow_streams (seq argstart (length args - argstart)) true [])
    as [[s0 ac] st1] eqn:E1.
  destruct (second_loop args argstart (s0 || ac) (seq 0 (length args)) st1 [])
    as [st2 fa] eqn:E2.
  assert (Hfa : f_actions_of args allow_streams argstart = fa).
  { unfold f_actions_of, storing_of. rewrite E1.
    rewrite (second_loop_fa_indep _ _ _ _ [] st1). rewrite E2. reflexivity. }
  rewrite Hfa. exists s0, ac, st1, st2.
  split; [first [reflexivity | exact E1]|]. split; [first [reflexivity | exact E2]|].
  unfold ActionWithArguments.requestArguments.
  destruct args as [|a0 r]; [contradiction|].
  cbv beta iota zeta. rewrite E1. cbv beta iota zeta. rewrite E2. reflexivity.
Qed.

Lemma forallb_eqb_all nt l : forallb (Nat.eqb nt) l = true -> forall n, In n l -> n = nt.
Proof.
  intros H n Hn. rewrite forallb_forall in H. specialize (H n Hn).
  apply Nat.eqb_eq in H. congruence.
Qed.

Lemma forallb_eqb_not_all nt l : (exists n, In n l /\ n <> nt) -> forallb (Nat.eqb nt) l = false.
Proof.
  intros (n & Hn & Hne). destruct (forallb (Nat.eqb nt) l) eqn:E; [|reflexivity].
  exfalso. exact (Hne (forallb_eqb_all nt l E n Hn)).
Qed.

Lemma chain_loop_true f0 nt fs done :
  chain_loop f0 nt fs done = true ->
  done = true /\ forall f, In f fs ->
    forallb (Nat.eqb nt) (ntasks_of f) = true /\ checkForDependency f0 f = false.
Proof.
  revert done; induction fs as [|fi rest IH]; intros done H.
  - split; [exact H | intros f []].
  - simpl in H.
    destruct (forallb (Nat.eqb nt) (ntasks_of fi)) eqn:Ef; destruct done;
      destruct (checkForDependency f0 fi) eqn:Ec; simpl in H; try discriminate.
    apply IH in H as [_ Hall]. split; [reflexivity|].
    intros f [<-|Hf]; [split; assumption | apply Hall, Hf].
Qed.

Lemma ntasks_head_tail f0 n :
  forallb (Nat.eqb (hd 0 (ntasks_of f0))) (tl (ntasks_of f0)) = true ->
  In n (ntasks_of f0) -> n = hd 0 (ntasks_of f0).
Proof.
  destruct (ntasks_of f0) as [|m ms]; simpl; [intros _ []|].
  intros H [<-|Hn]; [reflexivity | exact (forallb_eqb_all m ms H n Hn)].
Qed.

Lemma collect_f_actions_from this_label args is fa0 f :
  In f (collect_f_actions this_label args is fa0) ->
  In f fa0 \/ exists i, In i is /\ isConstant (arg args i) = false /\
                        calc_setup (arg args i) = false /\ calc (arg args i) = f.
Proof.
  revert fa0; induction is as [|i is IH]; intros fa0 Hf; [left; exact Hf|].
  simpl in Hf.
  repeat match type of Hf with context [if ?c then _ else _] => destruct c eqn:? end;
    destruct (IH _ Hf) as [H|(k & Hk & H)];
    try (right; exists k; split; [right; exact Hk|exact H]);
    try (left; exact H).
  apply in_app_or in H as [H|[<-|[]]]; [left; exact H|].
  right. exists i. split; [left; reflexivity|].
  repeat match goal with E : (_ && _) = true |- _ => apply andb_true_iff in E as [? ?] end.
  repeat match goal with E : negb _ = true |- _ => apply negb_true_iff in E end.
  repeat split; assumption.
Qed.

Lemma add_loop_no_add args is all_setup :
  (forall i, In i is -> prod_can_chain (arg args i) = true -> 0 < rank (arg args i) ->
     addActionToChain (prod_label (arg args i)) = false) ->
  add_loop args is all_setup =
    (false, all_setup && forallb (fun i => negb (prod_can_chain (arg args i))) is).
Proof.
  revert all_setup; induction is as [|i is IH]; intros all_setup H.
  - simpl. now rewrite andb_true_r.
  - simpl.
    assert (Hc : prod_can_chain (arg args i) && (0 <? rank (arg args i))
                 && addActionToChain (prod_label (arg args i)) = false).
    { destruct (prod_can_chain (arg args i)) eqn:Ecc; [|reflexivity].
      destruct (Nat.ltb_spec 0 (rank (arg args i))); [|reflexivity].
      simpl. apply H; [left; reflexivity | exact Ecc | assumption]. }
    rewrite Hc. rewrite IH by (intros k Hk; apply H; right; exact Hk).
    destruct (prod_can_chain (arg args i)), all_setup; reflexivity.
Qed.

Lemma construct_all_error oks m rest :
  (forall c, In c oks -> c = Ok tt) -> construct_all (oks ++ Error m :: rest) = Error m.
Proof.
  induction oks as [|c oks IH]; intros H; [reflexivity|].
  rewrite (H c (or_introl eq_refl)). simpl. apply IH. intros c' Hc'. apply H. right. exact Hc'.
Qed.

(** C7: when [done_over_stream] holds, some argument from [argstart] on
    is produced by an action this one could chain from, and no such
    producer of an argument of rank > 0 accepts this action in its chain,
    [setupActionInChain] fails with the message "could not add action
    <label> to chain of any of its arguments"; the same message ends the
    [HistogramBase] constructor when no argument of rank > 0 accepts it.
    The failure ends the run before any step: the steps are never
    reached whatever follows in the input. *)
Theorem chain_failure_is_fatal_at_setup (this_label : String.string) (argstart : nat)
        (args : list Arg) (oks rest : list (result unit)) (nsteps : nat)
        (Hcan : exists i, argstart <= i < length args /\ prod_can_chain (arg args i) = true)
        (Hno : forall i, argstart <= i < length args -> prod_can_chain (arg args i) = true ->
                 0 < rank (arg args i) -> addActionToChain (prod_label (arg args i)) = false)
        (Hoks : forall c, In c oks -> c = Ok tt) :
  setupActionInChain this_label true argstart args = Error (chain_error this_label) /\
  plumed_run (oks ++ (match setupActionInChain this_label true argstart args with
                      | Ok _ => Ok tt | Error m => Error m end) :: rest) nsteps
    = Error (chain_error this_label) /\
  ((forall a, In a args -> 0 < rank a -> addActionToChain (prod_label a) = false) ->
   histogram_chain this_label args = Error (chain_error this_label)).
Proof.
  assert (Hset : setupActionInChain this_label true argstart args = Error (chain_error this_label)).
  { unfold ActionWithArguments.setupActionInChain. cbv beta iota zeta.
    rewrite add_loop_no_add
      by (intros i Hi; apply in_seq in Hi; apply Hno; lia).
    destruct Hcan as (i & Hi & Hc).
    replace (forallb (fun i0 => negb (prod_can_chain (arg args i0)))
               (seq argstart (length args - argstart))) with false.
    - reflexivity.
    - symmetry. apply not_true_iff_false. intro Hall. rewrite forallb_forall in Hall.
      specialize (Hall i (proj2 (in_seq (length args - argstart) argstart i) ltac:(lia))). rewrite Hc in Hall. discriminate. }
  split; [exact Hset|]. split.
  - rewrite Hset. unfold plumed_run. rewrite construct_all_error by exact Hoks. reflexivity.
  - intros Hh. unfold ActionWithArguments.histogram_chain.
    replace (existsb (fun a => (0 <? rank a) && addActionToChain (prod_label a)) args) with false;
      [reflexivity|].
    symmetry. apply not_true_iff_false. intro Hex. apply existsb_exists in Hex as (a & Ha & Hb).
    apply andb_true_iff in Hb as [Hr Hb]. apply Nat.ltb_lt in Hr.
    rewrite (Hh a Ha Hr) in Hb. discriminate.
Qed.

Lemma final_stores_prefix args argstart d b st :
  final_stores args argstart d = Some (b, st) ->
  exists st' suf, d = Some (b, st') /\ st = st' ++ suf.
Proof.
  destruct d as [[[|] st']|]; simpl; intro H; inversion H; subst.
  - exists st, []. now rewrite app_nil_r.
  - exists st', (rank_positions args argstart). split; reflexivity.
Qed.

Lemma chaining_decision_prefix storing fa args st2 b st :
  chaining_decision storing fa args st2 = Some (b, st) -> exists suf, st = st2 ++ suf.
Proof.
  unfold ActionWithArguments.chaining_decision.
  destruct storing; [intro H; inversion H; subst; exists []; now rewrite app_nil_r|].
  destruct fa as [|f0 [|f1 rest]]; cbv zeta;
    repeat match goal with |- context [if ?c then _ else _] => destruct c end;
    intro H; inversion H; subst;
    first [exists []; now rewrite app_nil_r | eexists; reflexivity].
Qed.

Lemma in_tl {A} (x : A) l : In x (tl l) -> In x l.
Proof. destruct l; simpl; auto. Qed.

(** C6: [setupActionInChain] only fuses an upstream action that computes
    an argument from [argstart] on which is not constant and whose
    calculating action is not an [ActionSetup]; and whenever
    [requestArguments] completes, every constant argument from [argstart]
    on (every constant argument for the callers, which all pass
    [argstart = 0]) has been given a data store. *)
Theorem constant_arguments_not_chained (this_label : String.string) (done_over_stream : bool)
        (argstart : nat) (args : list Arg)
        (isAWV firstcall hasSERIAL allow_streams done_prev : bool) :
  (forall fa, setupActionInChain this_label done_over_stream argstart args = Ok fa ->
     forall f, In f fa ->
     exists i, argstart <= i < length args /\ isConstant (arg args i) = false /\
               calc_setup (arg args i) = false /\ calc (arg args i) = f) /\
  (forall b st,
     requestArguments isAWV firstcall hasSERIAL allow_streams argstart args done_prev = Some (b, st) ->
     forall i, argstart <= i < length args -> isConstant (arg args i) = true -> In i st).
Proof.
  split.
  - intros fa H f Hf. unfold ActionWithArguments.setupActionInChain in H.
    destruct done_over_stream; [|discriminate H]. cbv beta iota zeta in H.
    destruct (ActionWithArguments.add_loop addActionToChain args
                (seq argstart (length args - argstart)) true) as [added all_setup].
    destruct (negb all_setup && negb added); [discriminate H|].
    injection H as <-.
    apply collect_f_actions_from in Hf as [[]|(i & Hi & H)].
    apply in_seq in Hi. exists i. split; [lia | exact H].
  - intros b st H i Hi Hc.
    assert (Hne : args <> []) by (intro E; subst args; simpl in Hi; lia).
    destruct (requestArguments_shape isAWV firstcall hasSERIAL allow_streams argstart args
                done_prev Hne) as (s0 & ac & st1 & st2 & E1 & E2 & E3).
    assert (Hst2 : In i st2).
    { destruct (first_loop_constants args allow_streams (seq argstart (length args - argstart))
                  true []) as [_ R].
      rewrite E1 in R. simpl in R.
      destruct (R i (proj2 (in_seq (length args - argstart) argstart i) ltac:(lia)) Hc)
        as [Hi1|Hs0].
      - pose proof (second_loop_keeps args argstart (s0 || ac) (seq 0 (length args)) st1 [] i Hi1)
          as K.
        rewrite E2 in K. exact K.
      - subst s0. simpl in E2.
        pose proof (second_loop_storing args argstart (seq 0 (length args)) st1 [] i) as K.
        rewrite E2 in K. apply K; [apply in_seq; lia | lia]. }
    rewrite E3 in H.
    destruct (firstcall && negb isAWV && negb hasSERIAL).
    + injection H as <- <-. apply in_or_app; left; exact Hst2.
    + destruct (negb firstcall && negb isAWV).
      * injection H as <- <-. exact Hst2.
      * apply final_stores_prefix in H as (st' & suf & Hd & ->).
        apply chaining_decision_prefix in Hd as (suf' & ->).
        apply in_or_app; left. apply in_or_app; left. exact Hst2.
Qed.

(** C1 (amended): when the streamed arguments of an action come from more
    than one upstream action, chaining ([done_over_stream]) ends enabled
    only if every output of every upstream action has the task count of
    the first output of the first one, which does not depend on any of
    the others.  A task-count mismatch, for an action that reaches the
    decision (seen as an [ActionWithValue], or first call with SERIAL),
    either stops on the assertion (the mismatch is among the first
    upstream action's own outputs, and the arguments were not already
    stored) or ends with chaining disabled and every argument of rank > 0
    from [argstart] on given a data store.  A later call by an action not
    seen as an [ActionWithValue] ends with chaining disabled before this
    decision. *)
Theorem chaining_needs_matching_task_counts (isAWV firstcall hasSERIAL allow_streams : bool)
        (argstart : nat) (args : list Arg) (done_prev : bool)
        (Hmulti : 1 < length (f_actions_of args allow_streams argstart)) :
  let fa := f_actions_of args allow_streams argstart in
  let f0 := hd 0 fa in
  let nt := hd 0 (ntasks_of f0) in
  (forall st,
     requestArguments isAWV firstcall hasSERIAL allow_streams argstart args done_prev
       = Some (true, st) ->
     (forall f n, In f fa -> In n (ntasks_of f) -> n = nt) /\
     (forall f, In f (tl fa) -> checkForDependency f0 f = false)) /\
  ((isAWV = true \/ firstcall = true /\ hasSERIAL = true) ->
   (exists f n, In f fa /\ In n (ntasks_of f) /\ n <> nt) ->
   (requestArguments isAWV firstcall hasSERIAL allow_streams argstart args done_prev = None /\
    storing_of args allow_streams argstart = false /\
    exists n, In n (ntasks_of f0) /\ n <> nt) \/
   (exists st,
      requestArguments isAWV firstcall hasSERIAL allow_streams argstart args done_prev
        = Some (false, st) /\
      forall i, argstart <= i < length args -> 0 < rank (arg args i) -> In i st)) /\
  (isAWV = false -> firstcall = false ->
   exists st, requestArguments isAWV firstcall hasSERIAL allow_streams argstart args done_prev
                = Some (false, st)).
Proof.
  assert (Hne : args <> []).
  { intro E; subst args. unfold f_actions_of in Hmulti. simpl in Hmulti. lia. }
  destruct (requestArguments_shape isAWV firstcall hasSERIAL allow_streams argstart args
              done_prev Hne) as (s0 & ac & st1 & st2 & E1 & E2 & E3).
  assert (Hst : storing_of args allow_streams argstart = s0 || ac)
    by (unfold storing_of; rewrite E1; reflexivity).
  cbv zeta. rewrite E3. clear E3.
  destruct (f_actions_of args allow_streams argstart) as [|g0 [|g1 rest]];
    simpl in Hmulti; [lia | lia |].
  cbn [hd tl].
  unfold ActionWithArguments.final_stores, ActionWithArguments.chaining_decision.
  split; [|split].
  - intros st H.
    destruct (firstcall && negb isAWV && negb hasSERIAL); [discriminate H|].
    destruct (negb firstcall && negb isAWV); [discriminate H|].
    destruct (s0 || ac); cbv beta iota zeta in H; [discriminate H|].
    destruct (forallb (Nat.eqb (hd 0 (ntasks_of g0))) (tl (ntasks_of g0))) eqn:Ef0;
      [|discriminate H].
    destruct (chain_loop g0 (hd 0 (ntasks_of g0)) (g1 :: rest) true) eqn:Ec; [|discriminate H].
    apply chain_loop_true in Ec as [_ Hall]. split.
    + intros f n [->|Hf] Hn; [exact (ntasks_head_tail f n Ef0 Hn)|].
      exact (forallb_eqb_all _ _ (proj1 (Hall f Hf)) n Hn).
    + intros f Hf. exact (proj2 (Hall f Hf)).
  - intros Hcase (f & n & Hf & Hn & Hnt).
    assert (Hb1 : firstcall && negb isAWV && negb hasSERIAL = false)
      by (destruct Hcase as [H1|[H1 H2]]; subst; [destruct firstcall, hasSERIAL | destruct isAWV];
          reflexivity).
    assert (Hb2 : negb firstcall && negb isAWV = false)
      by (destruct Hcase as [H1|[H1 H2]]; subst; [destruct firstcall | destruct isAWV];
          reflexivity).
    rewrite Hb1, Hb2.
    destruct (s0 || ac) eqn:Es; cbv beta iota zeta.
    + right. exists (st2 ++ rank_positions args argstart). split; [reflexivity|].
      intros i Hi Hr. apply in_or_app; right. apply rank_positions_in. split; assumption.
    + destruct (forallb (Nat.eqb (hd 0 (ntasks_of g0))) (tl (ntasks_of g0))) eqn:Ef0.
      * destruct (chain_loop g0 (hd 0 (ntasks_of g0)) (g1 :: rest) true) eqn:Ec.
        -- exfalso. apply chain_loop_true in Ec as [_ Hall].
           destruct Hf as [->|Hf].
           ++ exact (Hnt (ntasks_head_tail f n Ef0 Hn)).
           ++ exact (Hnt (forallb_eqb_all _ _ (proj1 (Hall f Hf)) n Hn)).
        -- right. exists ((st2 ++ rank_positions args 0) ++ rank_positions args argstart).
           split; [reflexivity|].
           intros i Hi Hr. apply in_or_app; right. apply rank_positions_in. split; assumption.
      * left. split; [reflexivity|]. split; [exact Hst|].
        apply forallb_false_exists in Ef0 as (x & Hx & Hxe).
        exists x. split; [apply in_tl; exact Hx|].
        apply Nat.eqb_neq in Hxe. intro E. apply Hxe. symmetry. exact E.
  - intros -> ->. exists st2. destruct hasSERIAL; reflexivity.
Qed.
End ArgFacts.
End ActionWithArgumentsFacts.

Lemma chain_failure_is_fatal_at_setup_witness :
  ActionWithArguments.setupActionInChain (fun _ => false) "d"%string true 0 chain_example_args
  = ActionWithArguments.Error (ActionWithArguments.chain_error "d"%string).
Proof.
  assert (Hcan : exists i, 0 <= i < length chain_example_args /\
            ActionWithArguments.prod_can_chain (ActionWithArguments.arg chain_example_args i) = true)
    by (exists 0; split; [simpl; lia | reflexivity]).
  exact (proj1 (ActionWithArgumentsFacts.chain_failure_is_fatal_at_setup (fun _ => false)
                  "d"%string 0 chain_example_args [ActionWithArguments.Ok tt] [] 10 Hcan
                  (fun _ _ _ _ => eq_refl)
                  (fun c Hc => match Hc with
                               | or_introl E => eq_sym E
                               | or_intror F => match F with end
                               end))).
Defined.

Lemma chaining_needs_matching_task_counts_witness :
  1 < length (ActionWithArguments.f_actions_of chain_example_args true 0) /\
  (forall f n, In f [1; 2] -> In n [5] -> n = 5).
Proof.
  assert (Hm : 1 < length (ActionWithArguments.f_actions_of chain_example_args true 0))
    by (vm_compute; lia).
  split; [exact Hm|].
  exact (proj1 (proj1 (ActionWithArgumentsFacts.chaining_needs_matching_task_counts
                         (fun _ => [5]) (fun _ _ => false) (fun _ => []) [1; 2]
                         true true false true 0 chain_example_args false Hm) [] eq_refl)).
Defined.

(** The first of two upstream actions has outputs with 5 and 6 tasks: the
    call of [requestArguments] by an [ActionWithValue] stops on the
    assertion on the task counts of [f_actions[0]], with no data store
    given and chaining neither enabled nor replaced by stored mode. *)
Lemma chaining_mismatch_asserts_counterexample :
  ActionWithArguments.f_actions_of chain_example_args true 0 = [1; 2] /\
  mismatched_ntasks 1 = [5; 6] /\
  ActionWithArguments.requestArguments mismatched_ntasks (fun _ _ => false) (fun _ => []) [1; 2]
    true true false true 0 chain_example_args false = None.
Proof. split; [reflexivity | split; reflexivity]. Qed.

(** ** ActionWithArguments: forces, stash, shapes and constant values *)

Module ArgumentValuesFacts.
Import ArgumentValues.


Lemma scalar_loop_in (nvals : list nat) : forall j k i acc,
  j < length nvals -> k < nth j nvals 0 ->
  scalar_loop nvals (acc + list_sum (firstn j nvals) + k) i acc acc
  = (i + j, acc + list_sum (firstn j nvals)).
Proof.
  induction nvals as [|v r IH]; intros j k i acc Hj Hk; simpl in *; [lia|].
  destruct j as [|j]; simpl in *.
  - replace (acc + 0 + k <? acc + v) with true by (symmetry; apply Nat.ltb_lt; lia).
    f_equal; lia.
  - replace (acc + (v + list_sum (firstn j r)) + k <? acc + v) with false
      by (symmetry; apply Nat.ltb_ge; lia).
    replace (acc + (v + list_sum (firstn j r)) + k)
      with ((acc + v) + list_sum (firstn j r) + k) by lia.
    rewrite IH by lia. f_equal; lia.
Qed.

Lemma scalar_loop_out (nvals : list nat) : forall n i acc,
  acc + list_sum nvals <= n -> scalar_loop nvals n i acc acc = (0, acc + list_sum nvals).
Proof.
  induction nvals as [|v r IH]; intros n i acc Hn; simpl in *; [f_equal; lia|].
  replace (n <? acc + v) with false by (symmetry; apply Nat.ltb_ge; lia).
  rewrite IH by lia. f_equal; lia.
Qed.








Lemma stash_first_spec label s nq :
  match stash_first label s nq with
  | Some s' => stash_position label s' = Some nq
               /\ existsb (fun e => String.eqb (fst e) label) s = true
  | None => existsb (fun e => String.eqb (fst e) label) s = false
  end.
Proof.
  induction s as [|[l q] r IH]; simpl; [reflexivity|].
  destruct (String.eqb l label) eqn:E; simpl.
  - rewrite E. auto.
  - destruct (stash_first label r nq); simpl; [|exact IH].
    rewrite E. exact IH.
Qed.

Lemma stash_position_none label s :
  existsb (fun e => String.eqb (fst e) label) s = false -> stash_position label s = None.
Proof.
  induction s as [|[l q] r IH]; simpl; [reflexivity|].
  destruct (String.eqb l label); simpl; [discriminate|exact IH].
Qed.

Lemma rank2_shape_skip pre rest :
  forallb (fun a : RankShape => negb (fst a =? 2)) pre = true ->
  rank2_shape (pre ++ rest) = rank2_shape rest.
Proof.
  induction pre as [|[r sh] p IH]; simpl; [reflexivity|].
  destruct (r =? 2); simpl; [discriminate|exact IH].
Qed.

Lemma rank1_loop_app l1 l2 s : rank1_loop (l1 ++ l2) s = rank1_loop l2 (rank1_loop l1 s).
Proof. revert s; induction l1 as [|[r sh] p IH]; intros s; simpl; [reflexivity|apply IH]. Qed.

Lemma rank1_loop_none l s :
  forallb (fun a : RankShape => negb (fst a =? 1)) l = true -> rank1_loop l s = s.
Proof.
  revert s; induction l as [|[r sh] p IH]; intros s; simpl; [reflexivity|].
  destruct (r =? 1); simpl; [discriminate|apply IH].
Qed.

Lemma constant_loop_fst args atoms :
  fst (constant_loop args true atoms) = forallb fst args.
Proof.
  revert atoms; induction args as [|[c aa] r IH]; intros atoms; simpl; [reflexivity|].
  destruct c; simpl; [apply IH|reflexivity].
Qed.

Lemma constant_loop_snd args atoms :
  forallb fst args = true ->
  snd (constant_loop args true atoms) = atoms || existsb snd args.
Proof.
  revert atoms; induction args as [|[c aa] r IH]; intros atoms H; simpl in *.
  - now rewrite orb_false_r.
  - destruct c; simpl in *; [|discriminate]. rewrite IH by exact H.
    now rewrite orb_assoc.
Qed.

(** [setForceOnScalarArgument] with the arguments' values laid end to end:
    the scalar number [n] that falls at value [k] of argument [j] puts its
    force on exactly that value; a number past the last value puts it on
    argument 0 at index [n] minus the total number of values (when there
    is an argument). *)
Theorem setForceOnScalarArgument_index (nvals : list nat) (ff : Q) :
  (forall j k, j < length nvals -> k < nth j nvals 0 ->
     setForceOnScalarArgument nvals (list_sum (firstn j nvals) + k) ff = mkForceCall j k ff)
  /\ (forall n, nvals <> [] -> list_sum nvals <= n ->
        setForceOnScalarArgument nvals n ff = mkForceCall 0 (n - list_sum nvals) ff).
Proof.
  split.
  - intros j k Hj Hk. unfold setForceOnScalarArgument.
    replace (list_sum (firstn j nvals) + k) with (0 + list_sum (firstn j nvals) + k) by lia.
    rewrite scalar_loop_in by assumption. cbv beta iota. f_equal; lia.
  - intros n _ Hn. unfold setForceOnScalarArgument.
    rewrite scalar_loop_out by lia. reflexivity.
Qed.


(** [getNumberOfStashedInputArguments] followed by
    [getArgumentPositionInStream]: the arguments that store data for the
    action get the consecutive stream positions [nquants], [nquants+1], ...
    in argument order, [nquants] ends advanced by their number, and every
    other argument is read at [positionInStream]. *)
Theorem stashed_arguments_positions (label : String.string) (sdfs : list StoreDataFor)
        (nq0 rank : nat) (isTimeSeries : bool) (positionInStream taskIndex : nat) :
  let '(sdfs', nq) := getNumberOfStashedInputArguments label sdfs nq0 in
  length sdfs' = length sdfs
  /\ nq = nq0 + length (filter (existsb (fun e => String.eqb (fst e) label)) sdfs)
  /\ forall jder, jder < length sdfs ->
       fst (getArgumentPositionInStream label (nth jder sdfs' []) rank isTimeSeries
                                        positionInStream taskIndex)
       = if existsb (fun e => String.eqb (fst e) label) (nth jder sdfs [])
         then nq0 + length (filter (existsb (fun e => String.eqb (fst e) label))
                                   (firstn jder sdfs))
         else positionInStream.
Proof.
  revert nq0; induction sdfs as [|s r IH]; intros nq0; simpl.
  - repeat split; [lia|]. intros jder H; lia.
  - pose proof (stash_first_spec label s nq0) as Hs.
    destruct (stash_first label s nq0) as [s'|] eqn:E.
    + destruct Hs as [Hp He]. specialize (IH (S nq0)).
      destruct (getNumberOfStashedInputArguments label r (S nq0)) as [r' nq] eqn:E2.
      destruct IH as (Hl & Hnq & Hpos). rewrite He. simpl.
      repeat split; [congruence|lia|]. intros [|jder] Hj; simpl.
      * unfold getArgumentPositionInStream. rewrite Hp, He. simpl. lia.
      * rewrite Hpos by lia. destruct (existsb _ (nth jder r [])); [|reflexivity].
        rewrite He. simpl. lia.
    + specialize (IH nq0).
      destruct (getNumberOfStashedInputArguments label r nq0) as [r' nq] eqn:E2.
      destruct IH as (Hl & Hnq & Hpos). rewrite Hs. simpl.
      repeat split; [congruence|lia|]. intros [|jder] Hj; simpl.
      * unfold getArgumentPositionInStream. rewrite stash_position_none, Hs by exact Hs.
        reflexivity.
      * rewrite Hpos by lia. rewrite Hs. reflexivity.
Qed.

(** [getValueShapeFromArguments]: the first argument of rank 2 gives the
    shape; with no argument of rank 2 the last argument of rank 1 gives a
    square shape; with neither the shape is [0 x 0]. *)
Theorem getValueShapeFromArguments_choice :
  (forall pre sh post,
     forallb (fun a : RankShape => negb (fst a =? 2)) pre = true ->
     getValueShapeFromArguments (pre ++ (2, sh) :: post) = [nth 0 sh 0; nth 1 sh 0])
  /\ (forall pre sh post,
        forallb (fun a : RankShape => negb (fst a =? 2)) (pre ++ post) = true ->
        forallb (fun a : RankShape => negb (fst a =? 1)) post = true ->
        getValueShapeFromArguments (pre ++ (1, sh) :: post) = [nth 0 sh 0; nth 0 sh 0])
  /\ (forall args,
        forallb (fun a : RankShape => negb (fst a =? 2) && negb (fst a =? 1)) args = true ->
        getValueShapeFromArguments args = [0; 0]).
Proof.
  split; [|split].
  - intros pre sh post H. unfold getValueShapeFromArguments.
    rewrite rank2_shape_skip by exact H. reflexivity.
  - intros pre sh post H2 H1. unfold getValueShapeFromArguments.
    rewrite forallb_app in H2. apply andb_true_iff in H2 as [Hpre Hpost].
    rewrite rank2_shape_skip by exact Hpre. simpl.
    rewrite <- (app_nil_r post), rank2_shape_skip, app_nil_r by exact Hpost.
    simpl. rewrite rank1_loop_app. simpl. apply rank1_loop_none. exact H1.
  - intros args H. unfold getValueShapeFromArguments.
    rewrite <- (app_nil_r args), rank2_shape_skip.
    + simpl. rewrite app_nil_r. apply rank1_loop_none.
      apply forallb_forall. intros a Ha. rewrite forallb_forall in H.
      apply H, andb_true_iff in Ha; tauto.
    + apply forallb_forall. intros a Ha. rewrite forallb_forall in H.
      apply H, andb_true_iff in Ha; tauto.
Qed.

(** [skipCalculate] and [skipUpdate]: an action whose calculation is not
    skipped in [calculate] always skips it in [update], so it is never done
    twice in a step; it is skipped in both exactly when the average (or,
    without an average, the reweighting) in the arguments is not active. *)
Theorem skip_calculate_update (hasAverage hasReweight averageActive reweightActive : bool) :
  (skipCalculate hasAverage hasReweight = false ->
     skipUpdate hasAverage hasReweight averageActive reweightActive = true)
  /\ (skipCalculate hasAverage hasReweight
      && skipUpdate hasAverage hasReweight averageActive reweightActive = true
      <-> (hasAverage = true /\ averageActive = false)
          \/ (hasAverage = false /\ hasReweight = true /\ reweightActive = false)).
Proof.
  destruct hasAverage, hasReweight, averageActive, reweightActive; simpl;
    (split; [intro H; first [reflexivity | discriminate H]
            |split; intro H;
             [ first [ left; split; reflexivity | right; repeat split; reflexivity
                     | discriminate H ]
             | destruct H as [[H1 H2]|[H1 [H2 H3]]]; first [ reflexivity | discriminate ] ]]).
Qed.

(** [calculateConstantValues]: the outputs are made constant exactly when
    the action is an [ActionWithValue] with arguments that are all constant
    (and then it returns true unless an argument comes from an
    [ActionAtomistic] and there are no atoms yet); the values are computed
    at once exactly when, in addition, no argument comes from an
    [ActionAtomistic] and there are no atoms. *)
Theorem calculateConstantValues_cases (isAWV : bool) (args : list (bool * bool)) (haveatoms : bool) :
  let '(result, setc, now) := calculateConstantValues isAWV args haveatoms in
  (setc = true <-> isAWV = true /\ args <> [] /\ forallb fst args = true)
  /\ (result = true <-> setc = true /\ (existsb snd args = false \/ haveatoms = true))
  /\ (now = true <-> setc = true /\ existsb snd args = false /\ haveatoms = false).
Proof.
  unfold calculateConstantValues.
  destruct isAWV; cbn [negb orb].
  2: { split; [|split]; split; intros H; try discriminate;
      repeat match goal with Hc : _ /\ _ |- _ => destruct Hc end; discriminate. }
  destruct args as [|a r].
  { cbn. split; [|split]; split; intros H; try discriminate;
      repeat match goal with Hc : _ /\ _ |- _ => destruct Hc end;
      first [discriminate | congruence]. }
  pose proof (constant_loop_fst (a :: r) false) as Hf.
  pose proof (constant_loop_snd (a :: r) false) as Hs.
  assert (Hne : a :: r <> []) by discriminate.
  replace (length (a :: r) =? 0) with false by reflexivity. cbn [orb].
  destruct (constant_loop (a :: r) true false) as [constant atoms].
  cbn [fst snd] in Hf, Hs. rewrite <- Hf. rewrite <- Hf in Hs.
  destruct (existsb snd (a :: r)) eqn:E; destruct constant;
    try specialize (Hs eq_refl); subst; destruct haveatoms; cbn;
    intuition (try discriminate).
Qed.

End ArgumentValuesFacts.

Module NumericalDerivativesFacts.
Import ArgumentValues.






End NumericalDerivativesFacts.

(** ** MultiColvarBase *)

Module MultiColvarSetupFacts.
Import MultiColvarSetup.

Local Abbreviation blocks t k := (map (fun j => map (fun t' => k * t' + j) (seq 0 t)) (seq 0 k)).











Lemma string_app_assoc (a b c : String.string) :
  String.append (String.append a b) c = String.append a (String.append b c).
Proof. induction a as [|x a IH]; simpl; [reflexivity|now rewrite IH]. Qed.

Lemma prefix_app_cancel (s a b : String.string) :
  String.prefix (String.append s a) (String.append s b) = String.prefix a b.
Proof.
  induction s as [|x s IH]; simpl; [reflexivity|].
  destruct (Ascii.ascii_dec x x) as [_|Hx]; [exact IH|now exfalso].
Qed.

Lemma more_than_numbered_loop_labels convert labout argin weights keymap : forall fuel i l,
  In l (more_than_numbered_loop convert fuel i labout argin weights keymap) ->
  defines_label (String.append labout "_lt1") l = false.
Proof.
  induction fuel as [|fuel IH]; intros i l Hl; simpl in Hl; [contradiction|].
  destruct (count keymap _); simpl in Hl; [|contradiction].
  unfold defines_label. rewrite string_app_assoc.
  destruct Hl as [<-|Hl]; [rewrite prefix_app_cancel; reflexivity|].
  apply in_app_iff in Hl as [Hl|Hl].
  - destruct (has_weights weights); [|contradiction].
    destruct Hl as [<-|[]]. rewrite prefix_app_cancel; reflexivity.
  - destruct Hl as [<-|Hl]; [rewrite prefix_app_cancel; reflexivity|].
    rewrite <- string_app_assoc. exact (IH _ _ Hl).
Qed.

Lemma more_than_lines_labels labout argin weights keymap l :
  In l (more_than_lines labout argin weights keymap) ->
  defines_label (String.append labout "_lt1") l = false.
Proof.
  unfold more_than_lines. intros Hl.
  destruct (count keymap _); simpl in Hl; [|contradiction].
  unfold defines_label. rewrite string_app_assoc.
  destruct Hl as [<-|Hl]; [rewrite prefix_app_cancel; reflexivity|].
  apply in_app_iff in Hl as [Hl|Hl].
  - destruct (has_weights weights); [|contradiction].
    destruct Hl as [<-|[]]. rewrite prefix_app_cancel; reflexivity.
  - destruct Hl as [<-|[]]. rewrite prefix_app_cancel; reflexivity.
Qed.

(** The MORE_THAN blocks of [MultiColvarBase::expandFunctions] with
    weights: the weighting line of MORE_THAN1 multiplies the weights by
    [labout_lt1] (and glues [ARG2=] to the weights), a label that no line
    of the MORE_THAN blocks defines; the unnumbered block multiplies by its
    own [labout_mt]. *)
Theorem more_than_weighted_reads_lt (convert : nat -> String.string)
        (labout argin weights : String.string) (keymap : list (String.string * String.string)) :
  convert 1 = "1"%string -> has_weights weights = true -> count keymap "MORE_THAN1" = true ->
  In (String.append labout
        (String.append "_wmt1: MATHEVAL ARG1="
          (String.append weights
            (String.append "ARG2=" (String.append labout "_lt1 FUNC=x*y PERIODIC=NO")))))
     (more_than_numbered_lines convert labout argin weights keymap)
  /\ forall l, In l (more_than_lines labout argin weights keymap
                     ++ more_than_numbered_lines convert labout argin weights keymap) ->
       defines_label (String.append labout "_lt1") l = false.
Proof.
  intros Hc Hw Hk. split.
  - unfold more_than_numbered_lines. rewrite Hk. simpl. rewrite Hc. simpl.
    rewrite Hk, Hw. simpl. right. left. reflexivity.
  - intros l Hl. apply in_app_iff in Hl as [Hl|Hl].
    + exact (more_than_lines_labels _ _ _ _ _ Hl).
    + unfold more_than_numbered_lines in Hl. destruct (count keymap _); [|contradiction].
      exact (more_than_numbered_loop_labels _ _ _ _ _ _ _ _ Hl).
Qed.

End MultiColvarSetupFacts.

(** ** SecondaryStructureRMSD *)

Module SecondaryStructureFacts.
Import SecondaryStructureRMSD SecondaryStructureSetup.

Lemma addColvars_from cs : forall rest,
  cs <> [] ->
  addColvars rest (cs, seq 0 (length cs))
  = if forallb (fun s => length s =? length (nth 0 cs [])) rest
    then Some (cs ++ rest, seq 0 (length cs + length rest)) else None.
Proof.
  intros rest; revert cs; induction rest as [|s rest IH]; intros cs Hcs.
  - simpl. now rewrite app_nil_r, Nat.add_0_r.
  - cbn [addColvars forallb]. unfold addColvar.
    replace (0 <? length cs) with true by (destruct cs; [congruence|reflexivity]).
    rewrite (Nat.eqb_sym (length (nth 0 cs []))).
    destruct (length s =? length (nth 0 cs [])) eqn:E; cbn [negb andb]; [|reflexivity].
    assert (Hs : seq 0 (length cs) ++ [length cs] = seq 0 (length (cs ++ [s]))).
    { rewrite length_app, Nat.add_1_r, seq_S. reflexivity. }
    assert (Hn : nth 0 (cs ++ [s]) [] = nth 0 cs []).
    { destruct cs; [congruence|reflexivity]. }
    rewrite Hs, IH by (destruct cs; discriminate). rewrite Hn.
    destruct (forallb _ rest); [|reflexivity].
    rewrite <- app_assoc, length_app. simpl. do 3 f_equal. lia.
Qed.


(** [SecondaryStructureRMSD::addColvar] over a list of segments, starting
    with no colvar: when every segment has as many atoms as the first, all
    are stored in order and the task list is [0, 1, ..., n-1]; otherwise
    the [plumed_assert] fails. *)
Theorem addColvars_tasks (segments : list (list nat)) :
  (forallb (fun s => length s =? length (nth 0 segments [])) segments = true ->
     addColvars segments ([], []) = Some (segments, seq 0 (length segments)))
  /\ (forallb (fun s => length s =? length (nth 0 segments [])) segments = false ->
        addColvars segments ([], []) = None).
Proof.
  destruct segments as [|s rest]; [split; intros H; [reflexivity|discriminate]|].
  cbn [addColvars addColvar length nth forallb]. rewrite Nat.eqb_refl. cbn [andb].
  change (if (0 <? 0) && negb (0 =? length s) then None else Some ([] ++ [s], [] ++ [0]))
    with (@Some (list (list nat) * list nat) ([s], seq 0 (length [s]))).
  cbv iota.
  rewrite addColvars_from by discriminate. cbn [nth app length].
  split; intros H; rewrite H; reflexivity.
Qed.


Lemma make_whole_spec pbcDistance : forall n a pos,
  a + n < length pos ->
  let res := make_whole pbcDistance pos (seq a n) in
  (forall k, k <= a \/ a + n < k -> nth k res vzero = nth k pos vzero)
  /\ forall i, a <= i < a + n ->
       nth (S i) res vzero
       = vadd (nth i res vzero) (pbcDistance (nth i res vzero) (nth (S i) pos vzero)).
Proof.
  induction n as [|n IH]; intros a pos Hlen res; unfold res; simpl.
  - split; [reflexivity|intros i Hi; lia].
  - set (pos' := upd pos (S a) (vadd (nth a pos vzero)
                                  (pbcDistance (nth a pos vzero) (nth (S a) pos vzero)))).
    assert (Hl' : S a + n < length pos') by (unfold pos'; rewrite length_upd; lia).
    destruct (IH (S a) pos' Hl') as [Hout Hin]. cbv zeta in Hout, Hin.
    assert (Hother : forall k, k <> S a -> nth k pos' vzero = nth k pos vzero)
      by (intros k Hk; unfold pos'; apply nth_upd_other; congruence).
    split.
    + intros k Hk. rewrite Hout by lia. apply Hother. lia.
    + intros i Hi. destruct (Nat.eq_dec i a) as [->|Hne].
      * rewrite !Hout by lia. rewrite (Hother a) by lia.
        unfold pos'. rewrite nth_upd_same by lia. reflexivity.
      * rewrite Hin by lia. rewrite (Hother (S i)) by lia. reflexivity.
Qed.

(** [SecondaryStructureRMSD::performTask] without strand alignment, with
    periodic boundaries and not DRMSD: the segment is made whole along its
    chain.  The first atom keeps its position and every next atom is put
    at the new position of the atom before it plus [pbcDistance] from there
    to its own original position. *)
Theorem make_whole_chain (pbcDistance : Vector -> Vector -> Vector) (a1 a2 : nat)
        (pos : list Vector) :
  0 < length pos ->
  let res := performTask_positions pbcDistance false false false a1 a2 pos in
  nth 0 res vzero = nth 0 pos vzero
  /\ forall i, S i < length pos ->
       nth (S i) res vzero
       = vadd (nth i res vzero) (pbcDistance (nth i res vzero) (nth (S i) pos vzero)).
Proof.
  intros Hlen res. unfold res, performTask_positions. cbn [negb andb].
  destruct (make_whole_spec pbcDistance (length pos - 1) 0 pos) as [Hout Hin]; [lia|].
  cbv zeta in Hout, Hin. split.
  - apply Hout. lia.
  - intros i Hi. apply Hin. lia.
Qed.

End SecondaryStructureFacts.

(** ** FindContour *)

(** [FindContour::setupCurrentTaskList] against [finishOutputSetup]: every
    task index it adds is below the size [rank * npoints] given to the
    outputs, where [npoints] is the number of grid points, so each listed
    edge has a slot in the output. *)
Theorem setupCurrentTaskList_within_output (nbin : list nat) (isPeriodic : nat -> bool)
        (getIndex : list nat -> nat) (getIndices : nat -> list nat) (value : nat -> Q)
        (contour : Q) (npoints : nat) (tasks : list nat) :
  forall t, In t (FindContour.setupCurrentTaskList nbin isPeriodic getIndex getIndices value
                    contour npoints tasks) ->
    In t tasks \/ t < FindContour.finishOutputSetup (length nbin) npoints.
Proof.
  intros t Ht. unfold FindContour.setupCurrentTaskList in Ht. rewrite point_loop_spec in Ht.
  apply in_app_iff in Ht as [Ht|Ht]; [now left|right].
  apply in_flat_map in Ht as (i & Hi & Ht). apply in_seq in Hi.
  apply in_map_iff in Ht as (j & <- & Hj). apply filter_In in Hj as (Hj & _).
  apply in_seq in Hj. unfold FindContour.finishOutputSetup, FindContour.rank in *. nia.
Qed.

(** ** HistogramBase *)

Module HistogramFacts.
Import HistogramBase.

Lemma string_app_cancel_l (s a b : String.string) :
  String.append s a = String.append s b -> a = b.
Proof.
  induction s as [|x s IH]; simpl; [tauto|]. intros H. injection H as H. exact (IH H).
Qed.

Lemma label_differs (lab suffix : String.string) :
  suffix <> ":"%string -> String.append lab suffix <> String.append lab ":".
Proof. intros Hs E. apply Hs. exact (string_app_cancel_l _ _ _ E). Qed.

Lemma nth_add_at (b : list Q) p x k :
  k < length b -> (nth k (add_at b p x) 0 == nth k b 0 + if (k =? p)%nat then x else 0)%Q.
Proof.
  intros Hk. unfold add_at. destruct (Nat.eqb_spec k p) as [->|Hne].
  - rewrite nth_upd_same by exact Hk. reflexivity.
  - rewrite nth_upd_other by congruence. ring.
Qed.

Lemma nth_fold_add_at (der : nat -> Q) s k : forall n a (b : list Q),
  k < length b ->
  (nth k (fold_left (fun b i => add_at b (s + i) (der i)) (seq a n) b) 0
   == nth k b 0 + if ((s + a <=? k) && (k <? s + a + n))%nat then der (k - s)%nat else 0)%Q.
Proof.
  induction n as [|n IH]; intros a b Hk; simpl.
  - replace ((s + a <=? k) && (k <? s + a + 0)) with false; [ring|].
    symmetry. apply not_true_iff_false. rewrite andb_true_iff, Nat.leb_le, Nat.ltb_lt. lia.
  - rewrite IH by (unfold add_at; rewrite length_upd; exact Hk).
    rewrite nth_add_at by exact Hk.
    destruct (Nat.eqb_spec k (s + a)) as [->|Hne].
    + replace ((s + S a <=? s + a) && (s + a <? s + S a + n)) with false
        by (symmetry; apply not_true_iff_false; rewrite andb_true_iff, Nat.leb_le, Nat.ltb_lt; lia).
      replace ((s + a <=? s + a) && (s + a <? s + a + S n)) with true
        by (symmetry; rewrite andb_true_iff, Nat.leb_le, Nat.ltb_lt; lia).
      replace (s + a - s) with a by lia. ring.
    + replace ((s + S a <=? k) && (k <? s + S a + n))
        with ((s + a <=? k) && (k <? s + a + S n)); [ring|].
      destruct (Nat.leb_spec (s + S a) k), (Nat.ltb_spec k (s + S a + n)),
               (Nat.leb_spec (s + a) k), (Nat.ltb_spec k (s + a + S n)); simpl;
        reflexivity || lia.
Qed.

(** [HistogramBase::resolveNormalizationShortcut] only appends actions,
    and the action labelled [lab] is the last one it appends (no earlier
    new action carries that label).  With HEIGHTS and without UNORMALIZED
    it appends three: the sum of the heights [lab_hsum], the unnormalized
    histogram [lab_unorm] (with UNORMALIZED and the HEIGHTS keyword), and
    [lab] as their quotient.  The source reads [words[0]], so [words] is
    not empty. *)
Theorem resolveNormalizationShortcut_labels (lab : String.string) (words : list String.string)
        (keys : list (String.string * String.string)) (actions : list (list String.string)) :
  words <> [] ->
  (exists new, resolveNormalizationShortcut lab words keys actions = actions ++ new
     /\ nth 0 (last new []) ""%string = String.append lab ":"
     /\ forall a, In a (removelast new) -> nth 0 a ""%string <> String.append lab ":")
  /\ (count keys "HEIGHTS" = true -> count keys "UNORMALIZED" = false ->
      exists hsum hist,
        resolveNormalizationShortcut lab words keys actions
        = actions ++ [hsum; hist;
                      [String.append lab ":"; "MATHEVAL"%string;
                       String.append "ARG1=" (String.append lab "_unorm");
                       String.append "ARG2=" (String.append lab "_hsum");
                       "FUNC=x/y"%string; "PERIODIC=NO"%string]]
        /\ nth 0 hsum ""%string = String.append lab "_hsum:"
        /\ nth 0 hist ""%string = String.append lab "_unorm:"
        /\ In "UNORMALIZED"%string hist
        /\ In (String.append "HEIGHTS=" (find_value keys "HEIGHTS")) hist).
Proof.
  intros _. unfold resolveNormalizationShortcut.
  destruct (count keys "HEIGHTS"), (count keys "UNORMALIZED"); cbn [andb negb]; split;
    try (intros H1 H2; discriminate).
  - eexists. split; [reflexivity|]. split; [reflexivity|]. simpl. tauto.
  - eexists. split; [rewrite <- !app_assoc; reflexivity|]. split; [reflexivity|].
    simpl. intros a [<-|[<-|[]]]; simpl; apply label_differs; discriminate.
  - intros _ _. do 2 eexists. split; [rewrite <- !app_assoc; reflexivity|].
    split; [reflexivity|]. split; [reflexivity|]. split.
    + simpl. tauto.
    + apply in_or_app; right. apply in_or_app; right. now left.
  - eexists. split; [reflexivity|]. split; [reflexivity|]. simpl. tauto.
  - eexists. split; [reflexivity|]. split; [reflexivity|]. simpl. tauto.
Qed.


(** [HistogramBase::gatherGridAccumulators] with one kernel at a time:
    the kernel with code [code] adds its value at [bufstart + (1+nder)*code]
    and its [nder] derivatives in the [nder] entries right after it (all
    inside the buffer); every other entry of the buffer is left as it was. *)
Theorem gather_one_kernel_layout (nder code bufstart : nat) (value : Q) (der : nat -> Q)
        (buffer : list Q) (k : nat) :
  bufstart + (1 + nder) * code + nder < length buffer -> k < length buffer ->
  (nth k (gather_one_kernel nder code bufstart value der buffer) 0
   == nth k buffer 0
      + (if (k =? bufstart + (1 + nder) * code)%nat then value else 0)
      + (if ((bufstart + (1 + nder) * code <? k) && (k <=? bufstart + (1 + nder) * code + nder))%nat
         then der (k - (bufstart + (1 + nder) * code) - 1)%nat else 0))%Q.
Proof.
  intros _ Hk. unfold gather_one_kernel. cbv zeta.
  set (I := bufstart + (1 + nder) * code).
  rewrite (nth_fold_add_at der (I + 1) k nder 0)
    by (unfold add_at; rewrite length_upd; exact Hk).
  rewrite nth_add_at by exact Hk.
  replace ((I + 1 + 0 <=? k) && (k <? I + 1 + 0 + nder)) with ((I <? k) && (k <=? I + nder)).
  - replace (k - (I + 1)) with (k - I - 1) by lia. ring.
  - destruct (Nat.ltb_spec I k), (Nat.leb_spec k (I + nder)),
             (Nat.leb_spec (I + 1 + 0) k), (Nat.ltb_spec k (I + 1 + 0 + nder)); simpl;
      reflexivity || lia.
Qed.

End HistogramFacts.

(** ** Examples of the properties above *)




Lemma more_than_weighted_reads_lt_witness :
  In ("d_wmt1: MATHEVAL ARG1=wARG2=d_lt1 FUNC=x*y PERIODIC=NO")%string
     (MultiColvarSetup.more_than_numbered_lines convert_example "d" "x" "w"
        more_than_keymap_example)
  /\ forall l, In l (MultiColvarSetup.more_than_lines "d" "x" "w" more_than_keymap_example
                     ++ MultiColvarSetup.more_than_numbered_lines convert_example "d" "x" "w"
                          more_than_keymap_example) ->
       MultiColvarSetup.defines_label "d_lt1" l = false.
Proof.
  assert (H1 : convert_example 1 = "1"%string) by reflexivity.
  assert (H2 : MultiColvarSetup.has_weights "w" = true) by reflexivity.
  assert (H3 : MultiColvarSetup.count more_than_keymap_example "MORE_THAN1" = true)
    by reflexivity.
  exact (MultiColvarSetupFacts.more_than_weighted_reads_lt convert_example "d" "x" "w"
           more_than_keymap_example H1 H2 H3).
Defined.


Lemma make_whole_chain_witness :
  let pos := map strands_example_position [0; 5; 7] in
  let res := SecondaryStructureSetup.performTask_positions strands_example_distance
               false false false 0 1 pos in
  nth 0 res SecondaryStructureSetup.vzero = nth 0 pos SecondaryStructureSetup.vzero
  /\ forall i, S i < length pos ->
       nth (S i) res SecondaryStructureSetup.vzero
       = SecondaryStructureSetup.vadd (nth i res SecondaryStructureSetup.vzero)
           (strands_example_distance (nth i res SecondaryStructureSetup.vzero)
                                     (nth (S i) pos SecondaryStructureSetup.vzero)).
Proof.
  assert (H : 0 < length (map strands_example_position [0; 5; 7])) by (simpl; lia).
  exact (SecondaryStructureFacts.make_whole_chain strands_example_distance 0 1
           (map strands_example_position [0; 5; 7]) H).
Defined.

Lemma setupCurrentTaskList_within_output_witness :
  In 0 (FindContour.setupCurrentTaskList [3] (fun _ => false) (fun l => nth 0 l 0)
          (fun i => [i]) line_value_example (1#2) 3 [])
  /\ (In 0 [] \/ 0 < FindContour.finishOutputSetup (length [3]) 3).
Proof.
  assert (H : In 0 (FindContour.setupCurrentTaskList [3] (fun _ => false) (fun l => nth 0 l 0)
                      (fun i => [i]) line_value_example (1#2) 3 [])) by (vm_compute; tauto).
  split; [exact H|].
  exact (setupCurrentTaskList_within_output [3] (fun _ => false) (fun l => nth 0 l 0)
           (fun i => [i]) line_value_example (1#2) 3 [] 0 H).
Defined.

Lemma gather_one_kernel_layout_witness :
  0 + (1 + 2) * 1 + 2 < length (repeat 0%Q 8) /\ 4 < length (repeat 0%Q 8) /\
  (nth 4 (HistogramBase.gather_one_kernel 2 1 0 5 (fun i => inject_Z (Z.of_nat (S i)))
            (repeat 0%Q 8)) 0
   == nth 4 (repeat 0%Q 8) 0
      + (if (4 =? 0 + (1 + 2) * 1)%nat then 5 else 0)
      + (if ((0 + (1 + 2) * 1 <? 4) && (4 <=? 0 + (1 + 2) * 1 + 2))%nat
         then inject_Z (Z.of_nat (S (4 - (0 + (1 + 2) * 1) - 1))) else 0))%Q.
Proof.
  assert (H0 : 0 + (1 + 2) * 1 + 2 < length (repeat 0%Q 8)) by (rewrite repeat_length; lia).
  assert (H : 4 < length (repeat 0%Q 8)) by (rewrite repeat_length; lia).
  split; [exact H0|]. split; [exact H|].
  exact (HistogramFacts.gather_one_kernel_layout 2 1 0 5 (fun i => inject_Z (Z.of_nat (S i)))
           (repeat 0%Q 8) 4 H0 H).
Defined.


Lemma resolveNormalizationShortcut_labels_witness :
  ["HISTOGRAM"; "ARG=d"]%string <> [] /\
  (exists new, HistogramBase.resolveNormalizationShortcut "h" ["HISTOGRAM"; "ARG=d"]%string
                 [("HEIGHTS"%string, "w"%string)] [] = [] ++ new
     /\ nth 0 (last new []) ""%string = String.append "h" ":"
     /\ forall a, In a (removelast new) -> nth 0 a ""%string <> String.append "h" ":")
  /\ (HistogramBase.count [("HEIGHTS"%string, "w"%string)] "HEIGHTS" = true ->
      HistogramBase.count [("HEIGHTS"%string, "w"%string)] "UNORMALIZED" = false ->
      exists hsum hist,
        HistogramBase.resolveNormalizationShortcut "h" ["HISTOGRAM"; "ARG=d"]%string
          [("HEIGHTS"%string, "w"%string)] []
        = [] ++ [hsum; hist;
                 [String.append "h" ":"; "MATHEVAL"%string;
                  String.append "ARG1=" (String.append "h" "_unorm");
                  String.append "ARG2=" (String.append "h" "_hsum");
                  "FUNC=x/y"%string; "PERIODIC=NO"%string]]
        /\ nth 0 hsum ""%string = String.append "h" "_hsum:"
        /\ nth 0 hist ""%string = String.append "h" "_unorm:"
        /\ In "UNORMALIZED"%string hist
        /\ In (String.append "HEIGHTS=" (HistogramBase.find_value [("HEIGHTS"%string, "w"%string)]
                                           "HEIGHTS")) hist).
Proof.
  assert (H : ["HISTOGRAM"; "ARG=d"]%string <> []) by discriminate.
  split; [exact H|].
  exact (HistogramFacts.resolveNormalizationShortcut_labels "h" ["HISTOGRAM"; "ARG=d"]%string
           [("HEIGHTS"%string, "w"%string)] [] H).
Defined.
